(** * ProteinChat: prompt assembly and the causal-LM training step

    A shallow embedding of [proteinchat/models/proteinchat_old.py]
    (class [ProteinChat]): [reconstruct_protein], [encode_str],
    [encode_protein], [prompt_list_wrap] and [forward].

    What is modelled, and how:
    - a Python [str] is a [string]; [re.split] with one capturing group of
      two literal alternatives is the scanner [re_split];
    - a 2-D or 3-D torch tensor is a [tensor]: its rows (dim 0) and the
      length of every row (dim 1); the entries of a 3-D tensor are vectors of
      an abstract type (the hidden dimension is never inspected);
    - a raised Python exception is the [Raise] case of [result];
    - the pretrained sub-models (structure predictor, the two encoders, the
      sub-word vocabulary, the embedding table, the two linear projections and
      the language model) are the fields of the record [ProteinChat], the [self] of the methods;
    - the one piece of mutable state [forward] touches, the tokenizer's
      [padding_side], is passed in and out explicitly;
    - the dtype of a tensor of token ids is kept where it decides whether an
      embedding lookup raises: a tensor made from rows without any id is a
      float tensor;
    - the [breakpoint()] call of [prompt_list_wrap] returns or ends the call
      with [bdb.BdbQuit], as the process it runs in decides.

    What is not modelled: devices ([.to(device)] is the identity on values),
    casts between floating-point precisions, and the arithmetic inside the
    sub-models. *)

From Stdlib Require Import List String Ascii ZArith Lia Bool Arith PeanoNat.
From Stdlib Require Import DecimalString DecimalNat.
Import ListNotations.
Open Scope string_scope.
Open Scope list_scope.
Open Scope nat_scope.

Set Implicit Arguments.

(* ================================================================== *)
(** ** Exceptions *)

Inductive exn : Type :=
| ValueError (msg : string)
| RuntimeError (msg : string)
| BdbQuit.

Inductive result (A : Type) : Type :=
| Ok (a : A)
| Raise (e : exn).

Arguments Ok {A} a.
Arguments Raise {A} e.

Definition bind {A B : Type} (r : result A) (k : A -> result B) : result B :=
  match r with
  | Ok a => k a
  | Raise e => Raise e
  end.

Notation "x <- r ;; k" := (bind r (fun x => k))
  (at level 61, r at next level, right associativity).
Notation "' pat <- r ;; k" := (bind r (fun x => match x with pat => k end))
  (at level 61, pat pattern, r at next level, right associativity).

(* ================================================================== *)
(** ** Strings and [re.split] *)

Module Re.

(** The two alternatives of the pattern [(<proteinHere>|<structureHere>)]. *)
Definition proteinHere : string := "<proteinHere>".
Definition structureHere : string := "<structureHere>".

(** The alternation tried at one position: the first alternative that is a
    prefix of the remaining text wins. *)
Definition match_here (s : string) : option string :=
  if prefix proteinHere s then Some proteinHere
  else if prefix structureHere s then Some structureHere
  else None.

(** [re.split(r'(<proteinHere>|<structureHere>)', p)]: the text is scanned
    from the left; at a match the text collected so far and the captured
    delimiter are emitted and the scan resumes behind the match; the text
    after the last match is emitted at the end.  [skip] counts the characters
    of the current match still to be stepped over, [cur] is the text
    collected since the previous match. *)
Fixpoint split_from (skip : nat) (cur : string) (s : string) : list string :=
  match s with
  | EmptyString => [cur]
  | String c s' =>
      match skip with
      | S k => split_from k cur s'
      | O =>
          match match_here s with
          | Some d => cur :: d :: split_from (String.length d - 1) "" s'
          | None => split_from 0 (cur ++ String c "")%string s'
          end
      end
  end.

Definition re_split (p : string) : list string := split_from 0 "" p.

(** The placeholders met when reading [p] from left to right, every
    position tried. *)
Fixpoint placeholders (s : string) : list string :=
  match s with
  | EmptyString => []
  | String _ s' =>
      match match_here s with
      | Some d => d :: placeholders s'
      | None => placeholders s'
      end
  end.

End Re.

(* ================================================================== *)
(** ** Tensors *)

(** A tensor with a batch axis (dim 0) and a sequence axis (dim 1):
    [rows] holds one list per batch element and [dim1] is the size of the
    sequence axis, kept explicitly so that a tensor without rows still has a
    shape.  [well_shaped] says that every row has [dim1] entries. *)
Record tensor (A : Type) : Type := Tensor {
  dim1 : nat;
  rows : list (list A)
}.

Definition dim0 {A : Type} (t : tensor A) : nat := List.length (rows t).

Definition well_shaped {A : Type} (t : tensor A) : Prop :=
  Forall (fun r => List.length r = dim1 t) (rows t).

(** Elementwise application: an embedding lookup, a linear layer applied on
    the last axis, [~mask], [.long()]. *)
Definition tmap {A B : Type} (f : A -> B) (t : tensor A) : tensor B :=
  Tensor (dim1 t) (map (map f) (rows t)).

(** [torch.ones([b, l]).fill_(x)]. *)
Definition full {A : Type} (b l : nat) (x : A) : tensor A :=
  Tensor l (repeat (repeat x l) b).

Definition ones (b l : nat) : tensor Z := full b l 1%Z.

Fixpoint zip_with {A B C : Type} (f : A -> B -> C)
    (xs : list A) (ys : list B) : list C :=
  match xs, ys with
  | x :: xs', y :: ys' => f x y :: zip_with f xs' ys'
  | _, _ => []
  end.

Definition cat_error : exn :=
  RuntimeError "Sizes of tensors must match except in dimension 1".

(** [torch.cat([a, b], dim=1)]: the batch sizes must agree. *)
Definition cat2 {A : Type} (a b : tensor A) : result (tensor A) :=
  if dim0 a =? dim0 b
  then Ok (Tensor (dim1 a + dim1 b) (zip_with (@app A) (rows a) (rows b)))
  else Raise cat_error.

Fixpoint cat_onto {A : Type} (acc : tensor A) (ts : list (tensor A))
    : result (tensor A) :=
  match ts with
  | [] => Ok acc
  | t :: ts' => acc' <- cat2 acc t ;; cat_onto acc' ts'
  end.

(** [torch.cat(ts, dim=1)]. *)
Definition torch_cat {A : Type} (ts : list (tensor A)) : result (tensor A) :=
  match ts with
  | [] => Raise (RuntimeError "torch.cat(): expected a non-empty list of Tensors")
  | t :: ts' => cat_onto t ts'
  end.

(** [t[:, :n]]. *)
Definition narrow {A : Type} (n : nat) (t : tensor A) : tensor A :=
  Tensor (Nat.min n (dim1 t)) (map (firstn n) (rows t)).

(** Column [j] of a list of rows. *)
Definition column {A : Type} (j : nat) (rs : list (list A)) : list A :=
  flat_map (fun r => match nth_error r j with Some x => [x] | None => [] end) rs.

(** [t.permute([1, 0, 2])]: the first two axes are exchanged. *)
Definition permute10 {A : Type} (t : tensor A) : tensor A :=
  Tensor (dim0 t) (map (fun j => column j (rows t)) (seq 0 (dim1 t))).

(** [t == x], elementwise. *)
Definition eq_scalar (t : tensor Z) (x : Z) : tensor bool :=
  tmap (fun y => Z.eqb y x) t.

(** [t.masked_fill(mask, x)]. *)
Definition masked_fill {A : Type} (t : tensor A) (mask : tensor bool) (x : A)
    : tensor A :=
  Tensor (dim1 t)
    (zip_with (zip_with (fun y (m : bool) => if m then x else y))
       (rows t) (rows mask)).

(** [np.concatenate(ts, axis=0)]: at least one array, all of one width. *)
Definition np_concatenate0 {A : Type} (ts : list (tensor A))
    : result (tensor A) :=
  match ts with
  | [] => Raise (ValueError "need at least one array to concatenate")
  | t :: ts' =>
      if forallb (fun u => dim1 u =? dim1 t) ts'
      then Ok (Tensor (dim1 t) (List.concat (map (@rows A) ts)))
      else Raise (ValueError "all the input array dimensions except for the concatenation axis must match exactly")
  end.

(** Entry [(b, j)] of a tensor. *)
Definition entry {A : Type} (t : tensor A) (b j : nat) : option A :=
  match nth_error (rows t) b with
  | Some r => nth_error r j
  | None => None
  end.

(* ================================================================== *)
(** ** The language-model tokenizer *)

(** The calls of the source go to the [transformers] tokenizer; what follows
    is its batch call for the keyword arguments the source passes. *)

Inductive side : Type := PadLeft | PadRight.

(** What a tokenizer object brings: the ids of the sub-word pieces of a
    text, the special tokens put around a sequence of ids, and the ids of
    the BOS and EOS tokens. *)
Record LlamaTokenizer : Type := {
  tokenize_ids : string -> list Z;
  build_inputs_with_special_tokens : list Z -> list Z;
  bos_token_id : Z;
  eos_token_id : Z
}.

(** [self.llama_tokenizer.pad_token = self.llama_tokenizer.eos_token]
    in [__init__]. *)
Definition pad_token_id (tk : LlamaTokenizer) : Z := eos_token_id tk.

(** The keyword arguments of a tokenizer call that the source uses;
    [padding] stands for [padding=True] and [padding="longest"]. *)
Record tok_kwargs : Type := {
  add_special_tokens : bool;
  padding : bool;
  truncation : bool;
  max_length : option nat
}.

(** The dtype [torch.tensor] gives to a nested list of Python integers:
    [int64], or [float32] (the default dtype) when the list holds no number
    at all. *)
Inductive dtype : Type := Int64 | Float32.

Definition inferred_dtype (rs : list (list Z)) : dtype :=
  if forallb (fun r => List.length r =? 0) rs then Float32 else Int64.

(** What a tokenizer call returns.  The dtype is kept for the ids, which
    index the embedding table; the mask is only handed to [torch.cat], which
    accepts tensors of different dtypes. *)
Record BatchEncoding : Type := {
  input_ids : tensor Z;
  attention_mask : tensor Z;
  input_ids_dtype : dtype
}.

(** One text: ids, truncated on the right so that ids and special tokens fit
    into [max_length], then the special tokens. *)
Definition encode_one (tk : LlamaTokenizer) (kw : tok_kwargs) (text : string)
    : list Z :=
  let ids := tokenize_ids tk text in
  let n_special :=
    if add_special_tokens kw
    then List.length (build_inputs_with_special_tokens tk [])
    else 0 in
  let total := List.length ids + n_special in
  let ids :=
    match truncation kw, max_length kw with
    | true, Some m =>
        if m <? total then firstn (List.length ids - (total - m)) ids else ids
    | _, _ => ids
    end in
  if add_special_tokens kw then build_inputs_with_special_tokens tk ids
  else ids.

Definition longest (rs : list (list Z)) : nat :=
  fold_right (fun r m => Nat.max (List.length r) m) 0 rs.

Definition pad_ids (sd : side) (pad : Z) (l : nat) (ids : list Z) : list Z :=
  match sd with
  | PadRight => ids ++ repeat pad (l - List.length ids)
  | PadLeft => repeat pad (l - List.length ids) ++ ids
  end.

Definition pad_mask (sd : side) (l : nat) (ids : list Z) : list Z :=
  match sd with
  | PadRight => repeat 1%Z (List.length ids) ++ repeat 0%Z (l - List.length ids)
  | PadLeft => repeat 0%Z (l - List.length ids) ++ repeat 1%Z (List.length ids)
  end.

Definition ragged_error : exn :=
  ValueError "Unable to create tensor, you should probably activate truncation and/or padding with 'padding=True' 'truncation=True' to have batched tensors with the same length.".

Definition empty_batch_error : exn :=
  ValueError "You should supply an encoding or a list of encodings to this method that includes input_ids, but you provided []".

(** [return_tensors="pt"]: the rows become a tensor, of the dtype inferred
    from them, when they all have one length. *)
Definition to_tensor (rs : list (list Z)) : result (tensor Z * dtype) :=
  let l := match rs with [] => 0 | r :: _ => List.length r end in
  if forallb (fun r => List.length r =? l) rs
  then Ok (Tensor l rs, inferred_dtype rs)
  else Raise ragged_error.

(** [tokenizer(texts, return_tensors="pt", **kw)] with the tokenizer's
    [padding_side] being [sd].  A batch without texts has no [input_ids] to
    pad and is refused. *)
Definition tokenizer_call (tk : LlamaTokenizer) (sd : side) (kw : tok_kwargs)
    (texts : list string) : result BatchEncoding :=
  match texts with
  | [] => Raise empty_batch_error
  | _ :: _ =>
      let encoded := map (encode_one tk kw) texts in
      let l := longest encoded in
      let ids_rows :=
        if padding kw then map (pad_ids sd (pad_token_id tk) l) encoded
        else encoded in
      let mask_rows :=
        if padding kw then map (pad_mask sd l) encoded
        else map (fun r => repeat 1%Z (List.length r)) encoded in
      '(ids, ids_dtype) <- to_tensor ids_rows ;;
      '(mask, _) <- to_tensor mask_rows ;;
      Ok {| input_ids := ids; attention_mask := mask;
            input_ids_dtype := ids_dtype |}
  end.

(* ================================================================== *)
(** ** The model object *)

(** One predicted structure: coordinates, confidence, padding mask. *)
Definition structure (C F : Type) : Type :=
  (tensor C * tensor F * tensor bool)%type.

(** The fields of [self] that the methods below read.  The sub-models are
    black boxes: [alphafold_predict_structure] is
    [self.alphafold.predict_structure]; [str_encoder] returns
    [encoder_out[0]], sequence axis first; [protein_tokenizer] returns the
    [batch_tokens] of the batch converter; [protein_encoder] returns
    [representations[33]]; [embed_tokens] is one row of the language model's
    embedding table; the two projections act on one position.
    [breakpoint_returns] belongs to the process rather than to the object: it
    says whether the [breakpoint()] call of [prompt_list_wrap] returns (the
    hook is disabled, or the debugger session is continued) or ends the call
    with [bdb.BdbQuit] (the debugger has no input to read). *)
Record ProteinChat : Type := {
  coords_t : Type;
  confidence_t : Type;
  seq_repr : Type;
  str_repr : Type;
  hidden : Type;
  loss_t : Type;
  alphafold_predict_structure :
    list string -> result (list (structure coords_t confidence_t));
  str_encoder :
    tensor coords_t -> tensor confidence_t -> tensor bool -> tensor str_repr;
  protein_tokenizer : list (string * string) -> tensor Z;
  protein_encoder : tensor Z -> tensor seq_repr;
  llama_tokenizer : LlamaTokenizer;
  embed_tokens : Z -> hidden;
  llama_model : tensor hidden -> tensor Z -> tensor Z -> loss_t;
  glm_llama_proj : seq_repr -> hidden;
  str_llama_proj : str_repr -> hidden;
  max_txt_len : nat;
  end_sym : string;
  breakpoint_returns : bool
}.

(** The record [forward] receives; a missing or empty prompt list is
    [None] or [Some []], both false as a Python condition. *)
Record Samples : Type := {
  seq_ : list string;
  prompt_ : option (list string);
  text_input : list string
}.

Definition newline : string := String "010"%char "".

Definition str_of_nat (i : nat) : string :=
  NilEmpty.string_of_uint (Nat.to_uint i).

(** [f">sequence_{i}\n{seq}"]. *)
Definition fasta_record (i : nat) (s : string) : string :=
  (">sequence_" ++ str_of_nat i ++ newline ++ s)%string.

(** The structures unzipped and unpacked into three names. *)
Definition unzip3 {A B C : Type} (l : list (A * B * C))
    : result (list A * list B * list C) :=
  match l with
  | [] => Raise (ValueError "not enough values to unpack (expected 3, got 0)")
  | _ =>
      Ok (map (fun x => fst (fst x)) l, map (fun x => snd (fst x)) l,
          map (fun x => snd x) l)
  end.

(** [reconstruct_protein]: the predicted structures, concatenated along the
    batch axis. *)
Definition reconstruct_protein (self : ProteinChat) (seqs : list string)
    : result (structure (coords_t self) (confidence_t self)) :=
  let fasta_contents :=
    map (fun '(i, s) => fasta_record i s)
      (combine (seq 0 (List.length seqs)) seqs) in
  structures <- alphafold_predict_structure self fasta_contents ;;
  '(coords, confidence, padding_mask) <- unzip3 structures ;;
  coords <- np_concatenate0 coords ;;
  confidence <- np_concatenate0 confidence ;;
  padding_mask <- np_concatenate0 padding_mask ;;
  Ok (coords, confidence, padding_mask).

Definition tensor_not (m : tensor bool) : tensor bool := tmap negb m.

Definition tensor_long (m : tensor bool) : tensor Z :=
  tmap (fun b : bool => if b then 1%Z else 0%Z) m.

(** [encode_str].  The moves to the model device, the casts of [coords],
    [confidence] and the encoder output to a working precision, and the
    assertion that all devices agree (true after the moves) leave the values
    as they are. *)
Definition encode_str (self : ProteinChat)
    (str_tokens : structure (coords_t self) (confidence_t self))
    : tensor (hidden self) * tensor Z :=
  let '(coords, confidence, padding_mask) := str_tokens in
  let str_tokens := str_encoder self coords confidence (tensor_not padding_mask) in
  let str_tokens := permute10 str_tokens in
  let str_embeds := tmap (str_llama_proj self) str_tokens in
  let atts_llama := tensor_long padding_mask in
  (str_embeds, atts_llama).

(** [encode_protein].  The source runs the encoder twice on the same tokens
    and keeps the second result; [squeeze(dim=2)] leaves a tensor alone whose
    third axis is the embedding dimension. *)
Definition encode_protein (self : ProteinChat) (seqs : list string)
    : tensor (hidden self) * tensor Z :=
  let batch_seqs := map (fun s => ("protein", s)) seqs in
  let batch_tokens := protein_tokenizer self batch_seqs in
  let protein_embeds := protein_encoder self batch_tokens in
  let inputs_llama := tmap (glm_llama_proj self) protein_embeds in
  let atts_llama := ones (dim0 inputs_llama) (dim1 inputs_llama) in
  (inputs_llama, atts_llama).

Definition format_error : exn :=
  ValueError "Prompt format is incorrect. Expected format with '<proteinHere>' and '<structureHere>' placeholders.".

(** The test of the loop body on [splits]. *)
Definition splits_ok (splits : list string) : bool :=
  (List.length splits =? 5)
  && String.eqb (nth 1 splits "") Re.proteinHere
  && String.eqb (nth 3 splits "") Re.structureHere.

(** One turn of the loop over the prompts. *)
Definition split_prompt (p : string) : result (string * string * string) :=
  let splits := Re.re_split p in
  if splits_ok splits
  then Ok (nth 0 splits "", nth 2 splits "", nth 4 splits "")
  else Raise format_error.

(** The loop: the three lists, or the error of the first prompt that fails
    the test. *)
Fixpoint split_prompts (prompt : list string)
    : result (list string * list string * list string) :=
  match prompt with
  | [] => Ok ([], [], [])
  | p :: rest =>
      '(p_before, p_between, p_after) <- split_prompt p ;;
      '(p_before_lst, p_between_lst, p_after_lst) <- split_prompts rest ;;
      Ok (p_before :: p_before_lst, p_between :: p_between_lst,
          p_after :: p_after_lst)
  end.

Definition kw_plain : tok_kwargs :=
  {| add_special_tokens := false; padding := false;
     truncation := false; max_length := None |}.

Definition kw_after : tok_kwargs :=
  {| add_special_tokens := true; padding := true;
     truncation := false; max_length := None |}.

Definition kw_target (self : ProteinChat) : tok_kwargs :=
  {| add_special_tokens := false; padding := true;
     truncation := true; max_length := Some (max_txt_len self) |}.

(** [if prompt:]. *)
Definition truthy (prompt : option (list string)) : bool :=
  match prompt with
  | Some (_ :: _) => true
  | _ => false
  end.

Definition float_index_error : exn :=
  RuntimeError "Expected tensor for argument #1 'indices' to have one of the following scalar types: Long, Int; but got torch.FloatTensor instead (while checking arguments for embedding)".

(** [self.llama_model.model.embed_tokens(ids)]: the lookup wants integer
    indices. *)
Definition embedding (self : ProteinChat) (ids : tensor Z) (d : dtype)
    : result (tensor (hidden self)) :=
  match d with
  | Int64 => Ok (tmap (embed_tokens self) ids)
  | Float32 => Raise float_index_error
  end.

(** [breakpoint()]. *)
Definition breakpoint (self : ProteinChat) : result unit :=
  if breakpoint_returns self then Ok tt else Raise BdbQuit.

(** [prompt_list_wrap]; [padding_side] is the tokenizer's padding side at
    the time of the call, used by the padded call on the suffixes. *)
Definition prompt_list_wrap (self : ProteinChat) (padding_side : side)
    (img_embeds : tensor (hidden self)) (atts_img : tensor Z)
    (str_embeds : tensor (hidden self)) (atts_str : tensor Z)
    (prompt : option (list string))
    : result (tensor (hidden self) * tensor Z) :=
  if truthy prompt then
    '(p_before_lst, p_between_lst, p_after_lst) <-
      split_prompts (match prompt with Some ps => ps | None => [] end) ;;
    p_before_tokens <-
      tokenizer_call (llama_tokenizer self) padding_side kw_plain p_before_lst ;;
    p_between_tokens <-
      tokenizer_call (llama_tokenizer self) padding_side kw_plain p_between_lst ;;
    p_after_tokens <-
      tokenizer_call (llama_tokenizer self) padding_side kw_after p_after_lst ;;
    _ <- breakpoint self ;;
    p_before_embeds <-
      embedding self (input_ids p_before_tokens)
        (input_ids_dtype p_before_tokens) ;;
    p_between_embeds <-
      embedding self (input_ids p_between_tokens)
        (input_ids_dtype p_between_tokens) ;;
    p_after_embeds <-
      embedding self (input_ids p_after_tokens)
        (input_ids_dtype p_after_tokens) ;;
    wrapped_embeds <-
      torch_cat [p_before_embeds; img_embeds; p_between_embeds; str_embeds;
                 p_after_embeds] ;;
    wrapped_atts <-
      torch_cat [attention_mask p_before_tokens; atts_img;
                 attention_mask p_between_tokens; atts_str;
                 attention_mask p_after_tokens] ;;
    Ok (wrapped_embeds, wrapped_atts)
  else
    wrapped_embeds <- torch_cat [img_embeds; str_embeds] ;;
    wrapped_atts <- torch_cat [atts_img; atts_str] ;;
    Ok (wrapped_embeds, wrapped_atts).

(** Lines 279 to 287 of [forward]: the fused prompt block. *)
Definition forward_fused (self : ProteinChat) (padding_side : side)
    (samples : Samples) : result (tensor (hidden self) * tensor Z) :=
  let seqs := seq_ samples in
  str_tokens <- reconstruct_protein self seqs ;;
  let '(str_embeds, atts_str) := encode_str self str_tokens in
  let '(protein_embeds, atts_protein) := encode_protein self seqs in
  prompt_list_wrap self padding_side protein_embeds atts_protein
    str_embeds atts_str (prompt_ samples).

(** What [forward] hands to the language model. *)
Record LlamaInputs (self : ProteinChat) : Type := {
  inputs_embeds : tensor (hidden self);
  lm_attention_mask : tensor Z;
  labels : tensor Z
}.

(** Lines 289 to 328 of [forward], after [padding_side] was set to
    ["right"]: the labels, the input embeddings and the attention mask.
    [bos] is created with the dtype of the target ids. *)
Definition forward_inputs (self : ProteinChat)
    (img_embeds : tensor (hidden self)) (atts_img : tensor Z)
    (text_input : list string) : result (LlamaInputs self) :=
  let tk := llama_tokenizer self in
  let text := map (fun t => (t ++ end_sym self)%string) text_input in
  to_regress_tokens <- tokenizer_call tk PadRight (kw_target self) text ;;
  let targets :=
    masked_fill (input_ids to_regress_tokens)
      (eq_scalar (input_ids to_regress_tokens) (pad_token_id tk)) (-100)%Z in
  let empty_targets :=
    tmap (fun _ : Z => (-100)%Z) (ones (dim0 atts_img) (dim1 atts_img + 1)) in
  targets <- torch_cat [empty_targets; targets] ;;
  let batch_size := dim0 img_embeds in
  let bos := tmap (fun x => (x * bos_token_id tk)%Z) (ones batch_size 1) in
  bos_embeds <- embedding self bos (input_ids_dtype to_regress_tokens) ;;
  let atts_bos := narrow 1 atts_img in
  to_regress_embeds <-
    embedding self (input_ids to_regress_tokens)
      (input_ids_dtype to_regress_tokens) ;;
  inputs_embeds <- torch_cat [bos_embeds; img_embeds; to_regress_embeds] ;;
  attention_mask <-
    torch_cat [atts_bos; atts_img; attention_mask to_regress_tokens] ;;
  Ok {| inputs_embeds := inputs_embeds;
        lm_attention_mask := attention_mask;
        labels := targets |}.

(** [forward]: the loss, and the tokenizer's [padding_side] after the call
    (unchanged when the call raises before line 289). *)
Definition forward (self : ProteinChat) (padding_side : side)
    (samples : Samples) : result (loss_t self) * side :=
  match forward_fused self padding_side samples with
  | Raise e => (Raise e, padding_side)
  | Ok (img_embeds, atts_img) =>
      (inp <- forward_inputs self img_embeds atts_img (text_input samples) ;;
       Ok (llama_model self (inputs_embeds inp) (lm_attention_mask inp)
             (labels inp)),
       PadRight)
  end.

(* ================================================================== *)
(** ** Notions used in the statements *)

Module PromptShape.

(** Number of positions of [s] at which [d] starts. *)
Fixpoint occurrences (d s : string) : nat :=
  match s with
  | EmptyString => 0
  | String _ s' => (if prefix d s then 1 else 0) + occurrences d s'
  end.

(** Position of the first occurrence of [d] in [s], as [str.find] gives it
    (here [None] for Python's [-1]). *)
Fixpoint find (d s : string) : option nat :=
  match s with
  | EmptyString => None
  | String _ s' => if prefix d s then Some 0 else option_map S (find d s')
  end.

(** The prompt contains exactly one [<proteinHere>] and exactly one
    [<structureHere>], in that order. *)
Definition well_formed (p : string) : Prop :=
  occurrences Re.proteinHere p = 1 /\
  occurrences Re.structureHere p = 1 /\
  exists i j, find Re.proteinHere p = Some i /\
              find Re.structureHere p = Some j /\ i < j.

(** Occurrences of [d] in a list of strings. *)
Definition count (d : string) (l : list string) : nat :=
  List.length (filter (String.eqb d) l).

(** The entries of a split at the odd positions: the captured delimiters. *)
Fixpoint delimiters (l : list string) : list string :=
  match l with
  | _ :: d :: l' => d :: delimiters l'
  | _ => []
  end.

(** The first [k] characters of [s] exist and none of them is [<]. *)
Fixpoint no_open (k : nat) (s : string) : bool :=
  match k, s with
  | O, _ => true
  | S _, EmptyString => false
  | S k', String c s' => negb (Ascii.eqb c "<"%char) && no_open k' s'
  end.

Fixpoint no_open_in (t : string) : bool :=
  match t with
  | EmptyString => true
  | String c t' => negb (Ascii.eqb c "<"%char) && no_open_in t'
  end.

(** [s] without its first [k] characters. *)
Fixpoint drop (k : nat) (s : string) : string :=
  match k, s with
  | O, _ => s
  | S _, EmptyString => EmptyString
  | S k', String _ s' => drop k' s'
  end.

End PromptShape.

(** The three text segments of a prompt, as the loop of [prompt_list_wrap]
    names them. *)
Definition p_before (p : string) : string := nth 0 (Re.re_split p) "".
Definition p_between (p : string) : string := nth 2 (Re.re_split p) "".
Definition p_after (p : string) : string := nth 4 (Re.re_split p) "".

(** A prompt the test of the loop accepts, and one it rejects: its split
    does not have exactly five segments with [<proteinHere>] second and
    [<structureHere>] fourth. *)
Definition accepted (p : string) : Prop :=
  splits_ok (Re.re_split p) = true.
Definition malformed (p : string) : Prop :=
  splits_ok (Re.re_split p) = false.

(** Shape contracts of the two encoders: the structure encoder returns one
    position per column of its padding mask (sequence axis first); the
    sequence encoder returns at least one position. *)
Definition str_encoder_keeps_length (self : ProteinChat) : Prop :=
  forall c f m, dim0 (str_encoder self c f m) = dim1 m.

Definition protein_encoder_nonempty (self : ProteinChat) : Prop :=
  forall toks, 0 < dim1 (protein_encoder self toks).

(** The target strings as [forward] tokenizes them:
    [[t + self.end_sym for t in samples["text_input"]]]. *)
Definition target_text (self : ProteinChat) (texts : list string)
    : list string :=
  map (fun t => (t ++ end_sym self)%string) texts.

(** The label of a target position: the pad id becomes the sentinel. *)
Definition ignore_pad (self : ProteinChat) (y : Z) : Z :=
  if Z.eqb y (pad_token_id (llama_tokenizer self)) then (-100)%Z else y.

(** Row [b] of a tensor. *)
Definition row {A : Type} (t : tensor A) (b : nat) : option (list A) :=
  nth_error (rows t) b.

(* ================================================================== *)
(** ** A small instance, for evaluating the definitions *)

Module Toy.

Definition codes (s : string) : list Z :=
  map (fun c => Z.of_nat (nat_of_ascii c)) (list_ascii_of_string s).

(** One token per character; BOS (id 1) is the only special token. *)
Definition tokenizer : LlamaTokenizer :=
  {| tokenize_ids := codes;
     build_inputs_with_special_tokens := fun ids => 1%Z :: ids;
     bos_token_id := 1%Z;
     eos_token_id := 2%Z |}.

(** Every sequence is predicted as two residues, the second one padded. *)
Definition predict (fasta : list string)
    : result (list (structure Z Z)) :=
  Ok (map (fun _ => (Tensor 2 [[0%Z; 0%Z]], Tensor 2 [[9%Z; 9%Z]],
                     Tensor 2 [[true; false]])) fasta).

(** One token per residue, EOS; padded on the right with id 1. *)
Definition batch_converter (batch : list (string * string)) : tensor Z :=
  let rs := map (fun x => codes (snd x) ++ [2%Z]) batch in
  Tensor (longest rs) (map (pad_ids PadRight 1%Z (longest rs)) rs).

(** The representation of a leading position, then one per token. *)
Definition encoder (t : tensor Z) : tensor Z :=
  Tensor (S (dim1 t)) (map (cons 0%Z) (rows t)).

Definition model : ProteinChat :=
  {| coords_t := Z; confidence_t := Z; seq_repr := Z; str_repr := Z;
     hidden := Z; loss_t := Z;
     alphafold_predict_structure := predict;
     str_encoder := fun _ _ m =>
       permute10 (tmap (fun b : bool => if b then 7%Z else 8%Z) m);
     protein_tokenizer := batch_converter;
     protein_encoder := encoder;
     llama_tokenizer := tokenizer;
     embed_tokens := fun i => (1000 + i)%Z;
     llama_model := fun e _ _ => Z.of_nat (dim1 e);
     glm_llama_proj := fun x => x;
     str_llama_proj := fun x => x;
     max_txt_len := 4;
     end_sym := newline;
     breakpoint_returns := true |}.

Definition good : string := "Q<proteinHere>, <structureHere>?".

(** Two modality blocks of batch size two. *)
Definition img : tensor Z := Tensor 2 [[11; 12]; [13; 14]]%Z.
Definition atts_img : tensor Z := ones 2 2.
Definition str : tensor Z := Tensor 1 [[21]; [22]]%Z.
Definition atts_str : tensor Z := Tensor 1 [[1]; [0]]%Z.

(** Well-formed prompts whose prefixes, or whose middles, have different
    numbers of tokens. *)
Definition ragged_prefix : list string :=
  ["a<proteinHere><structureHere>"; "<proteinHere><structureHere>"].
Definition ragged_middle : list string :=
  ["<proteinHere>x<structureHere>"; "<proteinHere><structureHere>"].

(** A mask whose first column is not all ones. *)
Definition atts_zero : tensor Z := Tensor 2 [[0; 1]; [1; 1]]%Z.

Definition texts : list string := ["ab"; "abcdefgh"].

Definition one_structure : structure Z Z :=
  (Tensor 2 [[0%Z; 0%Z]], Tensor 2 [[9%Z; 9%Z]], Tensor 2 [[true; false]]).

Definition samples : Samples :=
  {| seq_ := ["MK"; "A"];
     prompt_ := Some [good; good];
     text_input := texts |}.

End Toy.

(* ================================================================== *)
(** ** Module level: the two devices *)

Module Devices.

(** What the three assignments at the top of the module can raise: the
    [IndexError] of [avalaible_gpus[1]], or what [torch.device] raises. *)
Inductive import_exn : Type :=
| IndexError (msg : string)
| DeviceError (e : exn).

Inductive outcome (A : Type) : Type :=
| Imported (a : A)
| Failed (e : import_exn).

Arguments Imported {A} a.
Arguments Failed {A} e.

(** [os.getenv(name, default)] where the variable has the value [env], or
    none. *)
Definition getenv (env : option string) (default : string) : string :=
  match env with
  | Some v => v
  | None => default
  end.

(** [s.split(",")]: [cur] is the piece collected so far. *)
Fixpoint split_from (cur : string) (s : string) : list string :=
  match s with
  | EmptyString => [cur]
  | String c s' =>
      if Ascii.eqb c ","%char then cur :: split_from "" s'
      else split_from (cur ++ String c "")%string s'
  end.

Definition split_comma (s : string) : list string := split_from "" s.

(** Lines 21 to 23: the devices of the structure predictor and of the other
    sub-models.  [torch_device] is [torch.device]. *)
Definition select_devices {D : Type} (torch_device : string -> result D)
    (env : option string) : outcome (D * D) :=
  let avalaible_gpus := split_comma (getenv env "0") in
  match nth_error avalaible_gpus 0 with
  | None => Failed (IndexError "list index out of range")
  | Some g0 =>
      match torch_device ("cuda:" ++ g0)%string with
      | Raise e => Failed (DeviceError e)
      | Ok device_af =>
          match nth_error avalaible_gpus 1 with
          | None => Failed (IndexError "list index out of range")
          | Some g1 =>
              match torch_device ("cuda:" ++ g1)%string with
              | Raise e => Failed (DeviceError e)
              | Ok device_pc => Imported (device_af, device_pc)
              end
          end
      end
  end.

(** No comma in [s]. *)
Fixpoint comma_free (s : string) : bool :=
  match s with
  | EmptyString => true
  | String c s' => negb (Ascii.eqb c ","%char) && comma_free s'
  end.

End Devices.

(* ================================================================== *)
(** ** Further notions used in the statements *)

(** The records [reconstruct_protein] hands to the structure predictor. *)
Definition fasta_contents (seqs : list string) : list string :=
  map (fun '(i, s) => fasta_record i s)
    (combine (seq 0 (List.length seqs)) seqs).

(** No line break in [s]. *)
Fixpoint newline_free (s : string) : bool :=
  match s with
  | EmptyString => true
  | String c s' => negb (Ascii.eqb c "010"%char) && newline_free s'
  end.

(** The three tensors of a structure. *)
Definition st_coords {C F : Type} (u : structure C F) : tensor C := fst (fst u).
Definition st_confidence {C F : Type} (u : structure C F) : tensor F :=
  snd (fst u).
Definition st_mask {C F : Type} (u : structure C F) : tensor bool := snd u.

(** The structures [sts] have the widths of [s], tensor by tensor. *)
Definition same_widths {C F : Type} (s : structure C F)
    (sts : list (structure C F)) : Prop :=
  Forall (fun u => dim1 (st_coords u) = dim1 (st_coords s) /\
                   dim1 (st_confidence u) = dim1 (st_confidence s) /\
                   dim1 (st_mask u) = dim1 (st_mask s)) sts.

Module Segments.

(** The entries of a split at the even positions: the text segments. *)
Fixpoint texts (l : list string) : list string :=
  match l with
  | [] => []
  | t :: l' => t :: match l' with [] => [] | _ :: l'' => texts l'' end
  end.

(** No placeholder occurs in [t]. *)
Definition free (t : string) : Prop :=
  PromptShape.occurrences Re.proteinHere t = 0 /\
  PromptShape.occurrences Re.structureHere t = 0.

(** No placeholder starts inside [t] when [t] is followed by [r]. *)
Fixpoint quiet (t r : string) : Prop :=
  match t with
  | EmptyString => True
  | String _ t' => Re.match_here (t ++ r)%string = None /\ quiet t' r
  end.

(** [r] is empty or starts with [<]. *)
Definition opens (r : string) : Prop :=
  match r with
  | EmptyString => True
  | String c _ => c = "<"%char
  end.

End Segments.

(** An embedding block: an embedding tensor and a mask, both made of rows
    of the announced length, with the same batch size and the same sequence
    length. *)
Definition block {A : Type} (e : tensor A) (a : tensor Z) : Prop :=
  well_shaped e /\ well_shaped a /\ dim0 e = dim0 a /\ dim1 e = dim1 a.

(** The ids of the suffix of a prompt, special tokens included. *)
Definition suffix_ids (self : ProteinChat) (p : string) : list Z :=
  encode_one (llama_tokenizer self) kw_after (p_after p).

(** The ids of a target text: at most [max_txt_len] of them. *)
Definition target_ids (self : ProteinChat) (t : string) : list Z :=
  firstn (max_txt_len self)
    (tokenize_ids (llama_tokenizer self) (t ++ end_sym self)%string).



Module ToyMore.

(** A predictor that fails, and the model around it. *)
Definition failing_predict (fasta : list string)
    : result (list (structure Z Z)) :=
  Raise (RuntimeError "out of memory").

Definition failing_model : ProteinChat :=
  {| coords_t := Z; confidence_t := Z; seq_repr := Z; str_repr := Z;
     hidden := Z; loss_t := Z;
     alphafold_predict_structure := failing_predict;
     str_encoder := str_encoder Toy.model;
     protein_tokenizer := protein_tokenizer Toy.model;
     protein_encoder := protein_encoder Toy.model;
     llama_tokenizer := llama_tokenizer Toy.model;
     embed_tokens := embed_tokens Toy.model;
     llama_model := llama_model Toy.model;
     glm_llama_proj := glm_llama_proj Toy.model;
     str_llama_proj := str_llama_proj Toy.model;
     max_txt_len := 4;
     end_sym := newline;
     breakpoint_returns := true |}.

(** The small instance in a process whose debugger has nothing to read. *)
Definition batch_model : ProteinChat :=
  {| coords_t := Z; confidence_t := Z; seq_repr := Z; str_repr := Z;
     hidden := Z; loss_t := Z;
     alphafold_predict_structure := alphafold_predict_structure Toy.model;
     str_encoder := str_encoder Toy.model;
     protein_tokenizer := protein_tokenizer Toy.model;
     protein_encoder := protein_encoder Toy.model;
     llama_tokenizer := llama_tokenizer Toy.model;
     embed_tokens := embed_tokens Toy.model;
     llama_model := llama_model Toy.model;
     glm_llama_proj := glm_llama_proj Toy.model;
     str_llama_proj := str_llama_proj Toy.model;
     max_txt_len := 4;
     end_sym := newline;
     breakpoint_returns := false |}.



(** A prompt like [Toy.good] with a longer suffix, and one without prefix. *)
Definition good_long : string := "Q<proteinHere>, <structureHere>??".
Definition no_prefix : string := "<proteinHere>, <structureHere>?".


(** [torch.device] for the strings ["cuda:<digit>"]. *)
Definition device (s : string) : result string :=
  match s with
  | String "c" (String "u" (String "d" (String "a" (String ":"
      (String d EmptyString))))) =>
      if (Nat.leb 48 (nat_of_ascii d) && Nat.leb (nat_of_ascii d) 57)%bool
      then Ok s
      else Raise (RuntimeError "Invalid device string")
  | _ => Raise (RuntimeError "Invalid device string")
  end.

Definition bad_samples : Samples :=
  {| seq_ := ["MK"; "A"];
     prompt_ := Some [Toy.good; "no placeholder"];
     text_input := Toy.texts |}.

Definition no_prompt_samples : Samples :=
  {| seq_ := ["MK"; "A"];
     prompt_ := None;
     text_input := Toy.texts |}.

End ToyMore.

(* ================================================================== *)
(** ** Splitting a prompt *)

Module ReFacts.
Import Re PromptShape.

Example re_split_plain :
  re_split "Q: <proteinHere> and <structureHere> ?"
  = ["Q: "; "<proteinHere>"; " and "; "<structureHere>"; " ?"].
Proof. reflexivity. Qed.

Example re_split_none : re_split "no marker" = ["no marker"].
Proof. reflexivity. Qed.

Example re_split_missing :
  splits_ok (re_split "only <proteinHere> here") = false.
Proof. reflexivity. Qed.

Example re_split_duplicated :
  splits_ok (re_split "<proteinHere><proteinHere><structureHere>") = false.
Proof. reflexivity. Qed.

Example re_split_swapped :
  splits_ok (re_split "<structureHere> then <proteinHere>") = false.
Proof. reflexivity. Qed.

Lemma prefix_cons_inv a t c s :
  prefix (String a t) (String c s) = true -> a = c /\ prefix t s = true.
Proof.
  simpl. destruct (ascii_dec a c) as [->|]; [auto | discriminate].
Qed.

Lemma prefix_no_open t s :
  prefix t s = true -> no_open_in t = true ->
  no_open (String.length t) s = true.
Proof.
  revert s. induction t as [|a t IH]; intros s Hp Hn; [reflexivity|].
  destruct s as [|c s]; [discriminate|].
  apply prefix_cons_inv in Hp as [-> Hp].
  simpl in Hn |- *. apply andb_true_iff in Hn as [Hc Hn].
  rewrite Hc. simpl. auto.
Qed.

Lemma prefix_drop t s :
  prefix t s = true -> (t ++ drop (String.length t) s)%string = s.
Proof.
  revert s. induction t as [|a t IH]; intros s Hp.
  - destruct s; reflexivity.
  - destruct s as [|c s]; [discriminate|].
    apply prefix_cons_inv in Hp as [-> Hp]. simpl. f_equal. auto.
Qed.

(** A match starts with [<], is one of the two placeholders, and the
    characters behind its first one hold no [<]. *)
Lemma match_here_inv c s d :
  match_here (String c s) = Some d ->
  c = "<"%char /\ (d = proteinHere \/ d = structureHere) /\
  prefix d (String c s) = true /\
  no_open (String.length d - 1) s = true.
Proof.
  unfold match_here.
  destruct (prefix proteinHere (String c s)) eqn:Hp.
  - intros [= <-]. pose proof Hp as Hp'.
    apply prefix_cons_inv in Hp as [<- Hp].
    repeat split; auto. now apply (prefix_no_open "proteinHere>").
  - destruct (prefix structureHere (String c s)) eqn:Hs; [|discriminate].
    intros [= <-]. pose proof Hs as Hs'.
    apply prefix_cons_inv in Hs as [<- Hs].
    repeat split; auto. now apply (prefix_no_open "structureHere>").
Qed.

Lemma match_here_not_open c s :
  Ascii.eqb c "<"%char = false -> match_here (String c s) = None.
Proof.
  intros Hc. destruct (match_here (String c s)) eqn:E; [|reflexivity].
  apply match_here_inv in E as [-> _]. discriminate.
Qed.

(** The scanner emits one delimiter per placeholder and one text segment
    more; skipping over a match never hides a later placeholder. *)
Lemma split_from_spec s : forall k cur,
  no_open k s = true ->
  delimiters (split_from k cur s) = placeholders s /\
  List.length (split_from k cur s) = 2 * List.length (placeholders s) + 1.
Proof.
  induction s as [|c s IH]; intros k cur Hk.
  - destruct k; [|discriminate]. simpl. auto.
  - destruct k as [|k].
    + cbn [split_from placeholders].
      destruct (match_here (String c s)) as [d|] eqn:E.
      * apply match_here_inv in E as (_ & _ & _ & Hn).
        destruct (IH (String.length d - 1) "" Hn) as [H1 H2].
        cbn [delimiters List.length]. rewrite H1, H2. split; [reflexivity|lia].
      * apply IH. reflexivity.
    + cbn [no_open] in Hk. apply andb_true_iff in Hk as [Hc Hk].
      apply negb_true_iff in Hc.
      cbn [split_from placeholders]. rewrite (@match_here_not_open c s Hc).
      now apply IH.
Qed.

Lemma re_split_delimiters p :
  delimiters (re_split p) = placeholders p /\
  List.length (re_split p) = 2 * List.length (placeholders p) + 1.
Proof. apply split_from_spec. reflexivity. Qed.

Lemma append_empty_right s : (s ++ "")%string = s.
Proof. induction s as [|c s IH]; simpl; [reflexivity | now rewrite IH]. Qed.

Lemma append_assoc_str a b c :
  ((a ++ b) ++ c)%string = (a ++ (b ++ c))%string.
Proof. induction a as [|x a IH]; simpl; [reflexivity | now rewrite IH]. Qed.

Lemma concat_empty_cons x l :
  String.concat "" (x :: l) = (x ++ String.concat "" l)%string.
Proof.
  destruct l as [|y l]; simpl; [now rewrite append_empty_right | reflexivity].
Qed.

(** The segments and delimiters of a split, put together again, are the
    prompt. *)
Lemma split_from_concat s : forall k cur,
  no_open k s = true ->
  String.concat "" (split_from k cur s) = (cur ++ drop k s)%string.
Proof.
  induction s as [|c s IH]; intros k cur Hk.
  - destruct k; [|discriminate]. simpl. now rewrite append_empty_right.
  - destruct k as [|k].
    + cbn [split_from drop].
      destruct (match_here (String c s)) as [d|] eqn:E.
      * apply match_here_inv in E as (_ & Hd & Hp & Hn).
        rewrite !concat_empty_cons, (IH _ _ Hn). cbn [append].
        f_equal. destruct Hd as [-> | ->]; exact (prefix_drop _ _ Hp).
      * rewrite (IH 0 _ eq_refl). cbn [drop].
        now rewrite append_assoc_str.
    + cbn [no_open] in Hk. apply andb_true_iff in Hk as [_ Hk].
      cbn [split_from drop]. now apply IH.
Qed.

Lemma re_split_concat p : String.concat "" (re_split p) = p.
Proof. apply (split_from_concat p 0 ""). reflexivity. Qed.

Lemma prefix_exclusive s :
  prefix proteinHere s = true -> prefix structureHere s = true -> False.
Proof.
  intros Hp Hs. destruct s as [|c s]; [discriminate|].
  apply prefix_cons_inv in Hp as [_ Hp].
  apply prefix_cons_inv in Hs as [_ Hs].
  destruct s as [|c2 s]; [discriminate|].
  apply prefix_cons_inv in Hp as [<- _].
  apply prefix_cons_inv in Hs as [E _]. discriminate E.
Qed.

Lemma match_here_cases s :
  (match_here s = Some proteinHere /\
   prefix proteinHere s = true /\ prefix structureHere s = false) \/
  (match_here s = Some structureHere /\
   prefix proteinHere s = false /\ prefix structureHere s = true) \/
  (match_here s = None /\
   prefix proteinHere s = false /\ prefix structureHere s = false).
Proof.
  unfold match_here.
  destruct (prefix proteinHere s) eqn:Hp, (prefix structureHere s) eqn:Hs;
    auto.
  destruct (prefix_exclusive s Hp Hs).
Qed.

Lemma count_placeholders s :
  count proteinHere (placeholders s) = occurrences proteinHere s /\
  count structureHere (placeholders s) = occurrences structureHere s /\
  List.length (placeholders s) =
    occurrences proteinHere s + occurrences structureHere s.
Proof.
  induction s as [|c s (IH1 & IH2 & IH3)]; [repeat split|].
  cbn [placeholders occurrences].
  destruct (match_here_cases (String c s))
    as [(-> & -> & ->) | [(-> & -> & ->) | (-> & -> & ->)]];
    unfold count in *; cbn [filter];
    change (String.eqb proteinHere proteinHere) with true;
    change (String.eqb structureHere structureHere) with true;
    change (String.eqb proteinHere structureHere) with false;
    change (String.eqb structureHere proteinHere) with false;
    cbn [List.length]; rewrite ?IH1, ?IH2, ?IH3; repeat split; lia.
Qed.

Lemma placeholders_either s :
  Forall (fun d => d = proteinHere \/ d = structureHere) (placeholders s).
Proof.
  induction s as [|c s IH]; [constructor|].
  cbn [placeholders].
  destruct (match_here_cases (String c s))
    as [(-> & _) | [(-> & _) | (-> & _)]]; auto.
Qed.

(** The placeholder met first is found before the other one. *)
Lemma first_placeholder s d d' :
  hd_error (placeholders s) = Some d ->
  d' = proteinHere \/ d' = structureHere -> d' <> d ->
  exists i, find d s = Some i /\ forall j, find d' s = Some j -> i < j.
Proof.
  intros Hd Hd' Hne. induction s as [|c s IH]; [discriminate|].
  cbn [placeholders] in Hd. cbn [find].
  destruct (match_here_cases (String c s))
    as [(E & Hp & Hs) | [(E & Hp & Hs) | (E & Hp & Hs)]];
    rewrite E in Hd.
  - injection Hd as <-. rewrite Hp. exists 0. split; [reflexivity|].
    destruct Hd' as [-> | ->]; [congruence|]. rewrite Hs.
    intros j Hj. destruct (find structureHere s); [|discriminate].
    injection Hj as <-. lia.
  - injection Hd as <-. rewrite Hs. exists 0. split; [reflexivity|].
    destruct Hd' as [-> | ->]; [|congruence]. rewrite Hp.
    intros j Hj. destruct (find proteinHere s); [|discriminate].
    injection Hj as <-. lia.
  - destruct (IH Hd) as (i & Hi & Hlt).
    assert (Hf : forall e, e = proteinHere \/ e = structureHere ->
              prefix e (String c s) = false) by (intros e [-> | ->]; auto).
    assert (Hd0 : d = proteinHere \/ d = structureHere).
    { pose proof (placeholders_either s) as F.
      destruct (placeholders s); [discriminate|].
      injection Hd as <-. now inversion F. }
    rewrite (Hf d Hd0), (Hf d' Hd'), Hi. exists (S i). split; [reflexivity|].
    intros j Hj. destruct (find d' s) as [j'|]; [|discriminate].
    injection Hj as <-. specialize (Hlt j' eq_refl). lia.
Qed.

(** "Exactly one of each, in that order" says that the placeholders of the
    prompt, read from the left, are [<proteinHere>] and then
    [<structureHere>]. *)
Lemma well_formed_placeholders p :
  well_formed p <-> placeholders p = [proteinHere; structureHere].
Proof.
  destruct (count_placeholders p) as (C1 & C2 & C3).
  pose proof (placeholders_either p) as F.
  split.
  - intros (O1 & O2 & i & j & Fi & Fj & Hij).
    rewrite O1 in C1. rewrite O2 in C2. rewrite O1, O2 in C3.
    destruct (placeholders p) as [|a [|b [|? ?]]] eqn:E; try discriminate.
    inversion F as [|? ? Ha F']; subst. inversion F' as [|? ? Hb _]; subst.
    destruct Ha as [-> | ->], Hb as [-> | ->]; try discriminate;
      [reflexivity|].
    exfalso.
    destruct (@first_placeholder p structureHere proteinHere)
      as (k & Hk & Hlt); [now rewrite E | auto | discriminate |].
    rewrite Fj in Hk. injection Hk as <-. specialize (Hlt i Fi). lia.
  - intros E. rewrite E in C1, C2. unfold count in C1, C2.
    cbn in C1, C2.
    destruct (@first_placeholder p proteinHere structureHere)
      as (i & Hi & Hlt); [now rewrite E | auto | discriminate |].
    assert (Hj : exists j, find structureHere p = Some j).
    { clear - C2. induction p as [|c p IH]; [discriminate|].
      cbn [find occurrences] in *.
      destruct (prefix structureHere (String c p)); [eauto|].
      destruct IH as [j ->]; [exact C2 | simpl; eauto]. }
    destruct Hj as [j Hj].
    repeat split; auto. exists i, j. auto.
Qed.

(** The test of the loop accepts exactly the prompts whose placeholders are
    [<proteinHere>] and then [<structureHere>]. *)
Lemma splits_ok_placeholders p :
  splits_ok (re_split p) = true <->
  placeholders p = [proteinHere; structureHere].
Proof.
  destruct (re_split_delimiters p) as [D L]. unfold splits_ok. split.
  - intros H. apply andb_true_iff in H as [H H3].
    apply andb_true_iff in H as [H5 H1].
    apply Nat.eqb_eq in H5. apply String.eqb_eq in H1, H3.
    destruct (re_split p) as [|a [|b [|c [|d [|e [|? ?]]]]]];
      try discriminate.
    cbn in D, H1, H3. now rewrite <- D, H1, H3.
  - intros E. rewrite E in D, L. cbn in L.
    destruct (re_split p) as [|a [|b [|c [|d [|e [|? ?]]]]]];
      try discriminate.
    cbn in D. injection D as -> ->. reflexivity.
Qed.

Lemma splits_ok_well_formed p :
  splits_ok (re_split p) = true <-> well_formed p.
Proof.
  now rewrite splits_ok_placeholders, well_formed_placeholders.
Qed.

(** A well-formed prompt is its three segments around the two
    placeholders. *)
Lemma well_formed_segments p :
  well_formed p ->
  p = (p_before p ++ proteinHere ++ p_between p ++ structureHere
       ++ p_after p)%string.
Proof.
  intros H. apply splits_ok_well_formed in H.
  pose proof (re_split_concat p) as C.
  unfold p_before, p_between, p_after, splits_ok in *.
  apply andb_true_iff in H as [H H3]. apply andb_true_iff in H as [H5 H1].
  apply Nat.eqb_eq in H5. apply String.eqb_eq in H1, H3.
  destruct (re_split p) as [|a [|b [|c [|d [|e [|? ?]]]]]]; try discriminate.
  cbn in H1, H3 |- *. subst b d. rewrite <- C at 1. reflexivity.
Qed.

End ReFacts.

(* ================================================================== *)
(** ** Tensor operations *)

Lemma zip_with_length {X B C : Type} (f : X -> B -> C) xs ys :
  List.length xs = List.length ys ->
  List.length (zip_with f xs ys) = List.length xs.
Proof.
  revert ys. induction xs as [|x xs IH]; intros [|y ys] H; simpl in *;
    try discriminate; auto.
Qed.

Lemma zip_with_nth {X B C : Type} (f : X -> B -> C) xs ys b :
  nth_error (zip_with f xs ys) b =
  match nth_error xs b, nth_error ys b with
  | Some x, Some y => Some (f x y)
  | _, _ => None
  end.
Proof.
  revert ys b. induction xs as [|x xs IH]; intros [|y ys] [|b]; simpl; auto.
  - now destruct (nth_error xs b).
Qed.

Section TensorFacts.
Context {A : Type}.

Lemma cat2_ok (a b : tensor A) :
  dim0 a = dim0 b ->
  cat2 a b = Ok (Tensor (dim1 a + dim1 b) (zip_with (@app A) (rows a) (rows b))).
Proof. intros H. unfold cat2. now rewrite H, Nat.eqb_refl. Qed.

Lemma cat2_inv (a b r : tensor A) :
  cat2 a b = Ok r ->
  dim0 a = dim0 b /\ dim0 r = dim0 a /\ dim1 r = dim1 a + dim1 b /\
  rows r = zip_with (@app A) (rows a) (rows b).
Proof.
  unfold cat2. destruct (dim0 a =? dim0 b) eqn:E; [|discriminate].
  apply Nat.eqb_eq in E. intros [= <-]. repeat split; auto.
  unfold dim0 in *. simpl. now apply zip_with_length.
Qed.

Lemma cat2_raise (a b : tensor A) :
  dim0 a <> dim0 b -> cat2 a b = Raise cat_error.
Proof. intros H. unfold cat2. apply Nat.eqb_neq in H. now rewrite H. Qed.

Lemma cat2_well_shaped (a b r : tensor A) :
  cat2 a b = Ok r -> well_shaped a -> well_shaped b -> well_shaped r.
Proof.
  intros H Wa Wb. apply cat2_inv in H as (_ & _ & D & R).
  unfold well_shaped in *. rewrite R, D. clear R D.
  revert Wa Wb. generalize (dim1 a) (dim1 b) (rows b).
  induction (rows a) as [|x xs IH]; intros n m [|y ys] Wa Wb; simpl;
    constructor.
  - inversion Wa; inversion Wb; subst. now rewrite length_app.
  - inversion Wa; inversion Wb; subst. now apply IH.
Qed.

(** A raise of [torch.cat] is the size error or the empty-list error. *)
Lemma cat_onto_raise (ts : list (tensor A)) : forall acc e,
  cat_onto acc ts = Raise e -> e = cat_error.
Proof.
  induction ts as [|t ts IH]; intros acc e; simpl; [discriminate|].
  unfold cat2. destruct (dim0 acc =? dim0 t); simpl; [apply IH|congruence].
Qed.

Lemma cat_onto_ok (ts : list (tensor A)) : forall acc,
  Forall (fun t => dim0 t = dim0 acc) ts -> exists r, cat_onto acc ts = Ok r.
Proof.
  induction ts as [|t ts IH]; intros acc F; simpl; [eauto|].
  inversion F as [|? ? Ht F']; subst.
  rewrite cat2_ok by auto. simpl. apply IH.
  eapply Forall_impl; [|exact F']. intros u Hu. rewrite Hu.
  unfold dim0 in *. simpl. rewrite zip_with_length; auto.
Qed.

(** Two tensors. *)
Lemma torch_cat2_inv (a b r : tensor A) :
  torch_cat [a; b] = Ok r ->
  dim0 a = dim0 b /\ dim0 r = dim0 a /\ dim1 r = dim1 a + dim1 b /\
  rows r = zip_with (@app A) (rows a) (rows b).
Proof.
  unfold torch_cat, cat_onto. destruct (cat2 a b) as [x|] eqn:E;
    [|discriminate]. simpl. intros [= <-]. now apply cat2_inv.
Qed.

Lemma torch_cat2_ok (a b : tensor A) :
  dim0 a = dim0 b -> exists r, torch_cat [a; b] = Ok r.
Proof.
  intros H. unfold torch_cat, cat_onto. rewrite (cat2_ok _ _ H). simpl. eauto.
Qed.

(** Three tensors. *)
Lemma torch_cat3_inv (a b c r : tensor A) :
  torch_cat [a; b; c] = Ok r ->
  dim0 b = dim0 a /\ dim0 c = dim0 a /\ dim0 r = dim0 a /\
  dim1 r = dim1 a + dim1 b + dim1 c /\
  forall i, row r i =
    match row a i, row b i, row c i with
    | Some x, Some y, Some z => Some (x ++ y ++ z)
    | _, _, _ => None
    end.
Proof.
  unfold torch_cat, cat_onto.
  destruct (cat2 a b) as [x|] eqn:E1; [|discriminate]. simpl.
  destruct (cat2 x c) as [y|] eqn:E2; [|discriminate]. simpl.
  intros [= <-].
  apply cat2_inv in E1 as (H1 & H2 & H3 & H4).
  apply cat2_inv in E2 as (H5 & H6 & H7 & H8).
  repeat split; try lia.
  intros i. unfold row. rewrite H8, zip_with_nth, H4, zip_with_nth.
  destruct (nth_error (rows a) i), (nth_error (rows b) i),
    (nth_error (rows c) i); auto.
  now rewrite <- app_assoc.
Qed.

Lemma torch_cat3_ok (a b c : tensor A) :
  dim0 b = dim0 a -> dim0 c = dim0 a -> exists r, torch_cat [a; b; c] = Ok r.
Proof. intros. apply cat_onto_ok. repeat constructor; auto. Qed.

(** Five tensors. *)
Lemma torch_cat5_inv (a b c d e r : tensor A) :
  torch_cat [a; b; c; d; e] = Ok r ->
  dim0 b = dim0 a /\ dim0 c = dim0 a /\ dim0 d = dim0 a /\
  dim0 e = dim0 a /\ dim0 r = dim0 a /\
  dim1 r = dim1 a + dim1 b + dim1 c + dim1 d + dim1 e /\
  forall i, row r i =
    match row a i, row b i, row c i, row d i, row e i with
    | Some x, Some y, Some z, Some u, Some v => Some (x ++ y ++ z ++ u ++ v)
    | _, _, _, _, _ => None
    end.
Proof.
  unfold torch_cat, cat_onto.
  destruct (cat2 a b) as [x1|] eqn:E1; [|discriminate]. simpl.
  destruct (cat2 x1 c) as [x2|] eqn:E2; [|discriminate]. simpl.
  destruct (cat2 x2 d) as [x3|] eqn:E3; [|discriminate]. simpl.
  destruct (cat2 x3 e) as [x4|] eqn:E4; [|discriminate]. simpl.
  intros [= <-].
  apply cat2_inv in E1 as (? & ? & ? & R1).
  apply cat2_inv in E2 as (? & ? & ? & R2).
  apply cat2_inv in E3 as (? & ? & ? & R3).
  apply cat2_inv in E4 as (? & ? & ? & R4).
  repeat split; try lia.
  intros i. unfold row.
  rewrite R4, zip_with_nth, R3, zip_with_nth, R2, zip_with_nth, R1,
    zip_with_nth.
  destruct (nth_error (rows a) i), (nth_error (rows b) i),
    (nth_error (rows c) i), (nth_error (rows d) i), (nth_error (rows e) i);
    auto.
  now rewrite <- !app_assoc.
Qed.

Lemma torch_cat5_ok (a b c d e : tensor A) :
  dim0 b = dim0 a -> dim0 c = dim0 a -> dim0 d = dim0 a -> dim0 e = dim0 a ->
  exists r, torch_cat [a; b; c; d; e] = Ok r.
Proof. intros. apply cat_onto_ok. repeat constructor; auto. Qed.

Lemma torch_cat_well_shaped (ts : list (tensor A)) r :
  torch_cat ts = Ok r -> Forall well_shaped ts -> well_shaped r.
Proof.
  destruct ts as [|t ts]; [discriminate|]. simpl.
  intros H F. inversion F as [|? ? Wt F']; subst. clear F.
  revert t r H Wt. induction ts as [|u ts IH]; intros t r H Wt; simpl in H.
  - now injection H as <-.
  - destruct (cat2 t u) as [x|] eqn:E; [|discriminate]. simpl in H.
    inversion F'; subst. eapply IH; eauto. eapply cat2_well_shaped; eauto.
Qed.

End TensorFacts.

(* ================================================================== *)
(** ** The tokenizer call *)

Section TokenizerFacts.

Lemma to_tensor_inv (rs : list (list Z)) t d :
  to_tensor rs = Ok (t, d) ->
  rows t = rs /\ dim0 t = List.length rs /\ well_shaped t /\
  dim1 t = match rs with [] => 0 | r :: _ => List.length r end.
Proof.
  unfold to_tensor.
  destruct (forallb _ rs) eqn:E; [|discriminate]. intros [= <- _].
  repeat split. unfold well_shaped. simpl.
  rewrite forallb_forall in E. apply Forall_forall. intros r Hr.
  apply Nat.eqb_eq. auto.
Qed.

Lemma to_tensor_dtype (rs : list (list Z)) t d :
  to_tensor rs = Ok (t, d) -> d = inferred_dtype rs.
Proof.
  unfold to_tensor. destruct (forallb _ rs); [|discriminate].
  now intros [= _ <-].
Qed.

Lemma to_tensor_uniform (rs : list (list Z)) l :
  rs <> [] -> Forall (fun r => List.length r = l) rs ->
  to_tensor rs = Ok (Tensor l rs, inferred_dtype rs).
Proof.
  intros Hne F. unfold to_tensor.
  assert (E : match rs with [] => 0 | r :: _ => List.length r end = l).
  { destruct rs; [congruence|]. now inversion F. }
  rewrite E.
  replace (forallb _ rs) with true; [reflexivity|].
  symmetry. apply forallb_forall. intros r Hr. apply Nat.eqb_eq.
  rewrite Forall_forall in F. auto.
Qed.

Lemma to_tensor_raise (rs : list (list Z)) e :
  to_tensor rs = Raise e -> e = ragged_error.
Proof. unfold to_tensor. destruct (forallb _ rs); congruence. Qed.

(** Rows of two different lengths do not make a tensor. *)
Lemma to_tensor_ragged (rs : list (list Z)) r1 r2 :
  In r1 rs -> In r2 rs -> List.length r1 <> List.length r2 ->
  to_tensor rs = Raise ragged_error.
Proof.
  intros H1 H2 Hne. unfold to_tensor.
  destruct (forallb _ rs) eqn:E; [|reflexivity].
  rewrite forallb_forall in E.
  apply E in H1, H2. apply Nat.eqb_eq in H1, H2. congruence.
Qed.

(** The ids are integers as soon as one row holds an id, and floats when no
    row does. *)
Lemma inferred_dtype_int (rs : list (list Z)) r :
  In r rs -> r <> [] -> inferred_dtype rs = Int64.
Proof.
  intros Hin Hne. unfold inferred_dtype.
  destruct (forallb _ rs) eqn:E; [|reflexivity].
  rewrite forallb_forall in E. apply E, Nat.eqb_eq in Hin.
  destruct r; [congruence | discriminate].
Qed.

Lemma inferred_dtype_float (rs : list (list Z)) :
  Forall (fun r => r = []) rs -> inferred_dtype rs = Float32.
Proof.
  intros F. unfold inferred_dtype.
  replace (forallb _ rs) with true; [reflexivity|].
  symmetry. apply forallb_forall. intros r Hr.
  rewrite Forall_forall in F. now rewrite (F r Hr).
Qed.

Lemma inferred_dtype_cases (rs : list (list Z)) :
  (inferred_dtype rs = Float32 /\ Forall (fun r => r = []) rs) \/
  (inferred_dtype rs = Int64 /\ exists r, In r rs /\ r <> []).
Proof.
  induction rs as [|r rs IH].
  - left. split; [reflexivity | constructor].
  - destruct r as [|x r].
    + destruct IH as [[E F] | [E (r' & Hin & Hne)]].
      * left. split; [|now constructor].
        apply inferred_dtype_float. now constructor.
      * right. split; [|exists r'; split; [now right | assumption]].
        apply (@inferred_dtype_int _ r'); [now right | assumption].
    + right. split; [reflexivity|].
      exists (x :: r). split; [now left | discriminate].
Qed.

Lemma inferred_dtype_uniform (rs : list (list Z)) l :
  rs <> [] -> Forall (fun r => List.length r = l) rs -> 0 < l ->
  inferred_dtype rs = Int64.
Proof.
  intros Hne F Hl. destruct rs as [|r rs]; [congruence|].
  apply (@inferred_dtype_int _ r); [now left|].
  inversion F; subst. destruct r; [simpl in Hl; lia | discriminate].
Qed.

Lemma longest_ge rs r : In r rs -> List.length r <= longest rs.
Proof.
  induction rs as [|x rs IH]; intros H; [contradiction|].
  simpl. destruct H as [-> | H]; [lia|]. apply IH in H. lia.
Qed.

Lemma pad_ids_length sd pad l ids :
  List.length ids <= l -> List.length (pad_ids sd pad l ids) = l.
Proof.
  intros H. destruct sd; simpl; rewrite length_app, repeat_length; lia.
Qed.

Lemma pad_mask_length sd l ids :
  List.length (pad_mask sd l ids) = List.length (pad_ids sd 0%Z l ids).
Proof.
  destruct sd; simpl; rewrite !length_app, !repeat_length; lia.
Qed.

Lemma pad_ids_length_any sd p q l ids :
  List.length (pad_ids sd p l ids) = List.length (pad_ids sd q l ids).
Proof. destruct sd; simpl; now rewrite !length_app, !repeat_length. Qed.

Lemma pad_ids_nonempty sd pad l ids : ids <> [] -> pad_ids sd pad l ids <> [].
Proof.
  intros Hne E. apply (f_equal (@List.length Z)) in E.
  destruct sd; simpl in E; rewrite length_app in E;
    destruct ids; try congruence; simpl in E; lia.
Qed.

(** Padding does not change the dtype: a padded batch holds an id exactly
    when the batch does. *)
Lemma inferred_dtype_padded sd pad (enc : list (list Z)) :
  inferred_dtype (map (pad_ids sd pad (longest enc)) enc) = inferred_dtype enc.
Proof.
  destruct (inferred_dtype_cases enc) as [[E F] | [E (r & Hin & Hne)]];
    rewrite E.
  - apply inferred_dtype_float. apply Forall_map.
    assert (L : longest enc = 0).
    { clear E. induction F as [|r rs -> _ IH]; [reflexivity|]. simpl.
      now rewrite IH. }
    rewrite L. eapply Forall_impl; [|exact F].
    intros r ->. now destruct sd.
  - apply (@inferred_dtype_int _ (pad_ids sd pad (longest enc) r)).
    + now apply in_map.
    + now apply pad_ids_nonempty.
Qed.

Variable tk : LlamaTokenizer.

Lemma tokenizer_call_empty sd kw :
  tokenizer_call tk sd kw [] = Raise empty_batch_error.
Proof. reflexivity. Qed.

Lemma tokenizer_call_nonempty sd kw texts tok :
  tokenizer_call tk sd kw texts = Ok tok -> texts <> [].
Proof. destruct texts; [discriminate | discriminate]. Qed.

(** A call that returns gives an id tensor and a mask of one shape, one row
    per text. *)
Lemma tokenizer_call_inv sd kw texts tok :
  tokenizer_call tk sd kw texts = Ok tok ->
  dim0 (input_ids tok) = List.length texts /\
  dim0 (attention_mask tok) = List.length texts /\
  dim1 (attention_mask tok) = dim1 (input_ids tok) /\
  well_shaped (input_ids tok) /\ well_shaped (attention_mask tok).
Proof.
  unfold tokenizer_call. destruct texts as [|t0 texts0]; [discriminate|].
  set (texts := t0 :: texts0).
  set (enc := map (encode_one tk kw) texts).
  destruct (to_tensor (if padding kw then _ else enc)) as [[ids d1]|] eqn:E1;
    [|discriminate]. cbn [bind].
  destruct (to_tensor (if padding kw then map (pad_mask _ _) _ else _))
    as [[mask d2]|] eqn:E2; [|discriminate]. cbn [bind].
  intros [= <-]. cbn [input_ids attention_mask].
  apply to_tensor_inv in E1 as (R1 & D1 & W1 & L1).
  apply to_tensor_inv in E2 as (R2 & D2 & W2 & L2).
  assert (Hlen : List.length enc = List.length texts)
    by (unfold enc; apply length_map).
  rewrite D1, D2, L1, L2.
  destruct (padding kw); rewrite ?length_map, Hlen; repeat split; auto;
    unfold enc, texts; cbn [map].
  - rewrite pad_mask_length. apply pad_ids_length_any.
  - apply repeat_length.
Qed.

(** The dtype of the ids of a call that returns: integers when one text has
    an id. *)
Lemma tokenizer_call_dtype sd kw texts tok :
  tokenizer_call tk sd kw texts = Ok tok ->
  input_ids_dtype tok = inferred_dtype (map (encode_one tk kw) texts).
Proof.
  unfold tokenizer_call. destruct texts as [|t0 texts0]; [discriminate|].
  set (texts := t0 :: texts0).
  set (enc := map (encode_one tk kw) texts).
  destruct (to_tensor (if padding kw then _ else enc)) as [[ids d1]|] eqn:E1;
    [|discriminate]. cbn [bind].
  destruct (to_tensor (if padding kw then map (pad_mask _ _) _ else _))
    as [[mask d2]|] eqn:E2; [|discriminate]. cbn [bind].
  intros [= <-]. cbn [input_ids_dtype].
  apply to_tensor_dtype in E1. rewrite E1.
  destruct (padding kw); [apply inferred_dtype_padded | reflexivity].
Qed.

Lemma tokenizer_call_raise sd kw texts e :
  tokenizer_call tk sd kw texts = Raise e ->
  (texts = [] /\ e = empty_batch_error) \/ (texts <> [] /\ e = ragged_error).
Proof.
  unfold tokenizer_call. destruct texts as [|t0 texts0].
  - intros [= <-]. now left.
  - intros H. right. split; [discriminate|]. revert H.
    destruct (to_tensor (if padding kw then _ else map _ (t0 :: texts0)))
      as [[ids d1]|] eqn:E1; cbn [bind].
    + destruct (to_tensor (if padding kw then map (pad_mask _ _) _ else _))
        as [[mask d2]|] eqn:E2; cbn [bind]; [discriminate|].
      intros [= <-]. now apply to_tensor_raise in E2.
    + intros [= <-]. now apply to_tensor_raise in E1.
Qed.

Lemma tokenizer_call_raise_nonempty sd kw texts e :
  texts <> [] -> tokenizer_call tk sd kw texts = Raise e -> e = ragged_error.
Proof.
  intros Hne H. apply tokenizer_call_raise in H as [[E _] | [_ E]];
    [congruence | exact E].
Qed.

(** Without padding the call returns when all texts have one number of
    ids; the rows are the ids, the mask is all ones. *)
Lemma tokenizer_call_plain sd texts l :
  texts <> [] ->
  Forall (fun t => List.length (tokenize_ids tk t) = l) texts ->
  tokenizer_call tk sd kw_plain texts =
  Ok {| input_ids := Tensor l (map (tokenize_ids tk) texts);
        attention_mask :=
          Tensor l (map (fun t => repeat 1%Z (List.length (tokenize_ids tk t)))
                      texts);
        input_ids_dtype := inferred_dtype (map (tokenize_ids tk) texts) |}.
Proof.
  intros Hne F. unfold tokenizer_call.
  destruct texts as [|t0 texts0]; [congruence|].
  set (texts := t0 :: texts0) in *. cbn [padding kw_plain].
  assert (E : map (encode_one tk kw_plain) texts = map (tokenize_ids tk) texts)
    by reflexivity.
  rewrite E, map_map.
  rewrite (@to_tensor_uniform (map (tokenize_ids tk) texts) l).
  - cbn [bind].
    rewrite (@to_tensor_uniform
      (map (fun t => repeat 1%Z (List.length (tokenize_ids tk t))) texts) l).
    + reflexivity.
    + discriminate.
    + apply Forall_map. eapply Forall_impl; [|exact F].
      intros t Ht. now rewrite repeat_length.
  - discriminate.
  - now apply Forall_map.
Qed.

(** Without padding, texts of different numbers of ids raise. *)
Lemma tokenizer_call_plain_ragged sd texts t1 t2 :
  In t1 texts -> In t2 texts ->
  List.length (tokenize_ids tk t1) <> List.length (tokenize_ids tk t2) ->
  tokenizer_call tk sd kw_plain texts = Raise ragged_error.
Proof.
  intros H1 H2 Hne. unfold tokenizer_call.
  destruct texts as [|t0 texts0]; [contradiction|].
  set (texts := t0 :: texts0) in *. cbn [padding kw_plain].
  rewrite (@to_tensor_ragged _ (tokenize_ids tk t1) (tokenize_ids tk t2));
    auto.
  - change (encode_one tk kw_plain) with (tokenize_ids tk). now apply in_map.
  - change (encode_one tk kw_plain) with (tokenize_ids tk). now apply in_map.
Qed.

(** With padding the call on a batch with a text always returns: every row
    is filled up to the longest one. *)
Lemma tokenizer_call_padded sd kw texts :
  padding kw = true -> texts <> [] ->
  let enc := map (encode_one tk kw) texts in
  tokenizer_call tk sd kw texts =
  Ok {| input_ids :=
          Tensor (longest enc) (map (pad_ids sd (pad_token_id tk) (longest enc)) enc);
        attention_mask :=
          Tensor (longest enc) (map (pad_mask sd (longest enc)) enc);
        input_ids_dtype := inferred_dtype enc |}.
Proof.
  intros Hp Hne enc. unfold tokenizer_call.
  destruct texts as [|t0 texts0]; [congruence|].
  set (texts := t0 :: texts0) in *. rewrite Hp. fold enc.
  assert (Hne' : enc <> []) by discriminate.
  rewrite (@to_tensor_uniform _ (longest enc)).
  - cbn [bind]. rewrite (@to_tensor_uniform _ (longest enc)).
    + cbn [bind]. now rewrite inferred_dtype_padded.
    + unfold enc, texts. discriminate.
    + apply Forall_map, Forall_forall. intros r Hr.
      rewrite pad_mask_length. apply pad_ids_length. now apply longest_ge.
  - unfold enc, texts. discriminate.
  - apply Forall_map, Forall_forall. intros r Hr.
    apply pad_ids_length. now apply longest_ge.
Qed.

End TokenizerFacts.

(* ================================================================== *)
(** ** [prompt_list_wrap] *)

Section PromptListWrap.
Import Re.

Lemma split_prompt_accepted p :
  accepted p -> split_prompt p = Ok (p_before p, p_between p, p_after p).
Proof. unfold accepted, split_prompt. now intros ->. Qed.

Lemma split_prompt_malformed p :
  malformed p -> split_prompt p = Raise format_error.
Proof. unfold malformed, split_prompt. now intros ->. Qed.

Lemma accepted_or_malformed p : accepted p \/ malformed p.
Proof. unfold accepted, malformed. destruct (splits_ok _); auto. Qed.

Lemma split_prompts_accepted ps :
  Forall accepted ps ->
  split_prompts ps = Ok (map p_before ps, map p_between ps, map p_after ps).
Proof.
  induction 1 as [|p ps Hp _ IH]; [reflexivity|].
  simpl. rewrite (split_prompt_accepted Hp). simpl. now rewrite IH.
Qed.

Lemma split_prompts_malformed ps :
  Exists malformed ps -> split_prompts ps = Raise format_error.
Proof.
  induction ps as [|p ps IH]; intros H; [inversion H|].
  simpl. destruct (accepted_or_malformed p) as [Hp | Hp].
  - rewrite (split_prompt_accepted Hp). simpl.
    rewrite IH; [reflexivity|].
    inversion H; subst; [unfold accepted, malformed in *; congruence | auto].
  - now rewrite (split_prompt_malformed Hp).
Qed.

Lemma split_prompts_cases ps :
  (Forall accepted ps /\
   split_prompts ps = Ok (map p_before ps, map p_between ps, map p_after ps))
  \/ (Exists malformed ps /\ split_prompts ps = Raise format_error).
Proof.
  destruct (Forall_Exists_dec accepted
              (fun p => Bool.bool_dec (splits_ok (re_split p)) true) ps)
    as [F | E].
  - left. split; [exact F | now apply split_prompts_accepted].
  - right. assert (E' : Exists malformed ps).
    { eapply Exists_impl; [|exact E]. intros p Hp.
      destruct (accepted_or_malformed p); [contradiction | assumption]. }
    split; [exact E' | now apply split_prompts_malformed].
Qed.

Variable self : ProteinChat.
Variable sd : side.
Variables (img_embeds str_embeds : tensor (hidden self)).
Variables (atts_img atts_str : tensor Z).

Let tk := llama_tokenizer self.
Let embed := tmap (embed_tokens self).

(** The prompt branch, once every prompt passed the test. *)
Lemma prompt_list_wrap_some ps :
  ps <> [] -> Forall accepted ps ->
  prompt_list_wrap self sd img_embeds atts_img str_embeds atts_str (Some ps) =
  (p_before_tokens <- tokenizer_call tk sd kw_plain (map p_before ps) ;;
   p_between_tokens <- tokenizer_call tk sd kw_plain (map p_between ps) ;;
   p_after_tokens <- tokenizer_call tk sd kw_after (map p_after ps) ;;
   _ <- breakpoint self ;;
   p_before_embeds <-
     embedding self (input_ids p_before_tokens)
       (input_ids_dtype p_before_tokens) ;;
   p_between_embeds <-
     embedding self (input_ids p_between_tokens)
       (input_ids_dtype p_between_tokens) ;;
   p_after_embeds <-
     embedding self (input_ids p_after_tokens)
       (input_ids_dtype p_after_tokens) ;;
   wrapped_embeds <-
     torch_cat [p_before_embeds; img_embeds; p_between_embeds; str_embeds;
                p_after_embeds] ;;
   wrapped_atts <-
     torch_cat [attention_mask p_before_tokens; atts_img;
                attention_mask p_between_tokens; atts_str;
                attention_mask p_after_tokens] ;;
   Ok (wrapped_embeds, wrapped_atts)).
Proof.
  intros Hne F. unfold prompt_list_wrap.
  destruct ps as [|p ps]; [congruence|]. cbn [truthy].
  rewrite (split_prompts_accepted F). reflexivity.
Qed.

Lemma embedding_int ids : embedding self ids Int64 = Ok (embed ids).
Proof. reflexivity. Qed.

Lemma embedding_ok ids d t :
  embedding self ids d = Ok t -> d = Int64 /\ t = embed ids.
Proof. destruct d; [|discriminate]. intros [= <-]. now split. Qed.

Lemma embedding_raise ids d e :
  embedding self ids d = Raise e -> d = Float32 /\ e = float_index_error.
Proof. destruct d; [discriminate|]. intros [= <-]. now split. Qed.

Lemma breakpoint_ok : breakpoint_returns self = true -> breakpoint self = Ok tt.
Proof. unfold breakpoint. now intros ->. Qed.

Lemma breakpoint_quit :
  breakpoint_returns self = false -> breakpoint self = Raise BdbQuit.
Proof. unfold breakpoint. now intros ->. Qed.

(** The branch without prompt. *)
Lemma prompt_list_wrap_none prompt :
  truthy prompt = false ->
  prompt_list_wrap self sd img_embeds atts_img str_embeds atts_str prompt =
  (wrapped_embeds <- torch_cat [img_embeds; str_embeds] ;;
   wrapped_atts <- torch_cat [atts_img; atts_str] ;;
   Ok (wrapped_embeds, wrapped_atts)).
Proof. intros H. unfold prompt_list_wrap. now rewrite H. Qed.

Lemma truthy_cases prompt :
  (exists ps, prompt = Some ps /\ ps <> [] /\ truthy prompt = true) \/
  truthy prompt = false.
Proof.
  destruct prompt as [[|p ps]|]; auto. left. exists (p :: ps).
  repeat split. discriminate.
Qed.

(** What a returned pair was built from: the debugger hook returned and
    each of the three id tensors holds integers. *)
Lemma prompt_list_wrap_inv_full prompt e a :
  prompt_list_wrap self sd img_embeds atts_img str_embeds atts_str prompt
  = Ok (e, a) ->
  (exists ps bef bet aft,
     prompt = Some ps /\ ps <> [] /\ Forall accepted ps /\
     tokenizer_call tk sd kw_plain (map p_before ps) = Ok bef /\
     tokenizer_call tk sd kw_plain (map p_between ps) = Ok bet /\
     tokenizer_call tk sd kw_after (map p_after ps) = Ok aft /\
     torch_cat [embed (input_ids bef); img_embeds; embed (input_ids bet);
                str_embeds; embed (input_ids aft)] = Ok e /\
     torch_cat [attention_mask bef; atts_img; attention_mask bet; atts_str;
                attention_mask aft] = Ok a /\
     breakpoint_returns self = true /\
     input_ids_dtype bef = Int64 /\ input_ids_dtype bet = Int64 /\
     input_ids_dtype aft = Int64)
  \/ (truthy prompt = false /\
      torch_cat [img_embeds; str_embeds] = Ok e /\
      torch_cat [atts_img; atts_str] = Ok a).
Proof.
  destruct (truthy_cases prompt) as [(ps & -> & Hne & _) | Hf].
  - destruct (split_prompts_cases ps) as [[F _] | [E R]].
    + rewrite (prompt_list_wrap_some Hne F).
      destruct (tokenizer_call tk sd kw_plain (map p_before ps)) as [bef|]
        eqn:E1; [|discriminate]. cbn [bind].
      destruct (tokenizer_call tk sd kw_plain (map p_between ps)) as [bet|]
        eqn:E2; [|discriminate]. cbn [bind].
      destruct (tokenizer_call tk sd kw_after (map p_after ps)) as [aft|]
        eqn:E3; [|discriminate]. cbn [bind].
      unfold breakpoint.
      destruct (breakpoint_returns self) eqn:Hb; [|discriminate]. cbn [bind].
      destruct (input_ids_dtype bef) eqn:D1; [|discriminate].
      destruct (input_ids_dtype bet) eqn:D2; [|discriminate].
      destruct (input_ids_dtype aft) eqn:D3; [|discriminate].
      cbn [embedding bind]. fold embed.
      destruct (torch_cat [embed _; _; _; _; _]) as [e'|] eqn:Ee;
        [|discriminate]. cbn [bind].
      destruct (torch_cat [attention_mask _; _; _; _; _]) as [a'|] eqn:Ea;
        [|discriminate]. cbn [bind].
      intros [= <- <-]. left. exists ps, bef, bet, aft.
      split; [reflexivity|]. split; [assumption|]. split; [assumption|].
      split; [assumption|]. split; [assumption|]. split; [assumption|].
      split; [assumption|]. split; [assumption|]. auto.
    + unfold prompt_list_wrap. destruct ps as [|p ps]; [inversion E|].
      cbn [truthy]. rewrite R. discriminate.
  - rewrite (prompt_list_wrap_none _ Hf).
    destruct (torch_cat [img_embeds; str_embeds]) as [e'|]; [|discriminate].
    cbn [bind].
    destruct (torch_cat [atts_img; atts_str]) as [a'|]; [|discriminate].
    cbn [bind]. intros [= <- <-]. right. auto.
Qed.

Lemma prompt_list_wrap_inv prompt e a :
  prompt_list_wrap self sd img_embeds atts_img str_embeds atts_str prompt
  = Ok (e, a) ->
  (exists ps bef bet aft,
     prompt = Some ps /\ ps <> [] /\ Forall accepted ps /\
     tokenizer_call tk sd kw_plain (map p_before ps) = Ok bef /\
     tokenizer_call tk sd kw_plain (map p_between ps) = Ok bet /\
     tokenizer_call tk sd kw_after (map p_after ps) = Ok aft /\
     torch_cat [embed (input_ids bef); img_embeds; embed (input_ids bet);
                str_embeds; embed (input_ids aft)] = Ok e /\
     torch_cat [attention_mask bef; atts_img; attention_mask bet; atts_str;
                attention_mask aft] = Ok a)
  \/ (truthy prompt = false /\
      torch_cat [img_embeds; str_embeds] = Ok e /\
      torch_cat [atts_img; atts_str] = Ok a).
Proof.
  intros H. apply prompt_list_wrap_inv_full in H
    as [(ps & bef & bet & aft & H1 & H2 & H3 & H4 & H5 & H6 & H7 & H8 & _) | H];
    [left | now right].
  exists ps, bef, bet, aft. repeat (split; [assumption|]). assumption.
Qed.

(** The errors [prompt_list_wrap] can raise, and where the format error
    comes from. *)
Lemma prompt_list_wrap_raise prompt e :
  prompt_list_wrap self sd img_embeds atts_img str_embeds atts_str prompt
  = Raise e ->
  (e = format_error /\ exists ps, prompt = Some ps /\ Exists malformed ps)
  \/ e = ragged_error \/ e = cat_error
  \/ (e = BdbQuit /\ breakpoint_returns self = false)
  \/ e = float_index_error.
Proof.
  assert (Hcat : forall (X : Type) (ts : list (tensor X)) x,
            ts <> [] -> torch_cat ts = Raise x -> x = cat_error).
  { intros X [|t ts] x Hne; [congruence|]. apply cat_onto_raise. }
  assert (Hmap : forall (f : string -> string) (l : list string),
            l <> [] -> map f l <> []).
  { intros f [|x l] Hl; [congruence | discriminate]. }
  destruct (truthy_cases prompt) as [(ps & -> & Hne & _) | Hf].
  - destruct (split_prompts_cases ps) as [[F _] | [E R]].
    + rewrite (prompt_list_wrap_some Hne F).
      destruct (tokenizer_call tk sd kw_plain (map p_before ps)) as [bef|] eqn:E1;
        [|intros [= <-]; right; left;
          eapply tokenizer_call_raise_nonempty; [|eauto]; auto].
      cbn [bind].
      destruct (tokenizer_call tk sd kw_plain (map p_between ps)) as [bet|] eqn:E2;
        [|intros [= <-]; right; left;
          eapply tokenizer_call_raise_nonempty; [|eauto]; auto].
      cbn [bind].
      destruct (tokenizer_call tk sd kw_after (map p_after ps)) as [aft|] eqn:E3;
        [|intros [= <-]; right; left;
          eapply tokenizer_call_raise_nonempty; [|eauto]; auto].
      cbn [bind]. unfold breakpoint.
      destruct (breakpoint_returns self) eqn:Hb;
        [|intros [= <-]; right; right; right; left; now split].
      cbn [bind].
      destruct (input_ids_dtype bef);
        [|intros [= <-]; right; right; right; now right].
      destruct (input_ids_dtype bet);
        [|intros [= <-]; right; right; right; now right].
      destruct (input_ids_dtype aft);
        [|intros [= <-]; right; right; right; now right].
      cbn [embedding bind]. fold embed.
      destruct (torch_cat [embed _; _; _; _; _]) as [e'|] eqn:Ee;
        [|intros [= <-]; right; right; left; eapply Hcat; [|eauto]; discriminate].
      cbn [bind].
      destruct (torch_cat [attention_mask _; _; _; _; _]) as [a'|] eqn:Ea;
        [|intros [= <-]; right; right; left; eapply Hcat; [|eauto]; discriminate].
      discriminate.
    + unfold prompt_list_wrap. destruct ps as [|p ps]; [inversion E|].
      cbn [truthy]. rewrite R. intros [= <-]. left. eauto.
  - rewrite (prompt_list_wrap_none _ Hf).
    destruct (torch_cat [img_embeds; str_embeds]) as [e'|] eqn:Ee;
      [|intros [= <-]; right; right; left; eapply Hcat; [|eauto]; discriminate].
    cbn [bind].
    destruct (torch_cat [atts_img; atts_str]) as [a'|] eqn:Ea;
      [|intros [= <-]; right; right; left; eapply Hcat; [|eauto]; discriminate].
    discriminate.
Qed.

End PromptListWrap.

(* ================================================================== *)
(** ** Prompt assembly: what is returned and what is raised *)

Section Assembly.
Variable self : ProteinChat.
Variable sd : side.
Variables (img_embeds str_embeds : tensor (hidden self)).
Variables (atts_img atts_str : tensor Z).

Let tk := llama_tokenizer self.
Let embed := tmap (embed_tokens self).

(** Prefixes of different token counts raise the tokenizer's error, whatever
    the tokenizer. *)
Lemma prompt_list_wrap_ragged ps p1 p2 :
  Forall accepted ps -> In p1 ps -> In p2 ps ->
  List.length (tokenize_ids tk (p_before p1))
    <> List.length (tokenize_ids tk (p_before p2)) ->
  prompt_list_wrap self sd img_embeds atts_img str_embeds atts_str (Some ps)
  = Raise ragged_error.
Proof.
  intros F H1 H2 Hne.
  rewrite prompt_list_wrap_some; auto.
  - rewrite (@tokenizer_call_plain_ragged tk sd _ (p_before p1) (p_before p2));
      auto using in_map.
  - intros ->. contradiction.
Qed.

(** C1, as amended.  Where the debugger hook of line 250 returns, for a
    non-empty list of prompts that each contain exactly one [<proteinHere>]
    and exactly one [<structureHere>], in that order, with as many prompts as
    the four input tensors have rows, whose prefixes all have [lb] tokens and
    whose middles all have [lm] tokens, [lb] and [lm] not zero, and one of
    whose suffixes has a token once the special tokens are added,
    [prompt_list_wrap] returns; the sequence length of the returned
    embedding is the sum of the lengths of the prefix embedding, the sequence
    block, the middle embedding, the structure block and the suffix
    embedding, and every row is the five rows in that order. *)
Theorem prompt_list_wrap_assembles ps lb lm :
  breakpoint_returns self = true ->
  ps <> [] ->
  Forall PromptShape.well_formed ps ->
  Forall (fun p => List.length (tokenize_ids tk (p_before p)) = lb) ps ->
  Forall (fun p => List.length (tokenize_ids tk (p_between p)) = lm) ps ->
  0 < lb -> 0 < lm ->
  (exists p, In p ps /\ suffix_ids self p <> []) ->
  dim0 img_embeds = List.length ps -> dim0 atts_img = List.length ps ->
  dim0 str_embeds = List.length ps -> dim0 atts_str = List.length ps ->
  exists bef bet aft wrapped_embeds wrapped_atts,
    tokenizer_call tk sd kw_plain (map p_before ps) = Ok bef /\
    tokenizer_call tk sd kw_plain (map p_between ps) = Ok bet /\
    tokenizer_call tk sd kw_after (map p_after ps) = Ok aft /\
    prompt_list_wrap self sd img_embeds atts_img str_embeds atts_str (Some ps)
      = Ok (wrapped_embeds, wrapped_atts) /\
    dim1 (embed (input_ids bef)) = lb /\
    dim1 (embed (input_ids bet)) = lm /\
    dim1 wrapped_embeds =
      dim1 (embed (input_ids bef)) + dim1 img_embeds
      + dim1 (embed (input_ids bet)) + dim1 str_embeds
      + dim1 (embed (input_ids aft)) /\
    forall b, row wrapped_embeds b =
      match row (embed (input_ids bef)) b, row img_embeds b,
            row (embed (input_ids bet)) b, row str_embeds b,
            row (embed (input_ids aft)) b with
      | Some x, Some y, Some z, Some u, Some v => Some (x ++ y ++ z ++ u ++ v)
      | _, _, _, _, _ => None
      end.
Proof.
  intros Hbp Hne Hwf Hb Hm Lb Lm (p0 & Hin & Hsuf) D1 D2 D3 D4.
  assert (F : Forall accepted ps).
  { eapply Forall_impl; [|exact Hwf]. intros p.
    apply ReFacts.splits_ok_well_formed. }
  assert (Nb : map p_before ps <> []) by (destruct ps; [congruence|discriminate]).
  assert (Nm : map p_between ps <> []) by (destruct ps; [congruence|discriminate]).
  assert (Na : map p_after ps <> []) by (destruct ps; [congruence|discriminate]).
  pose proof (@tokenizer_call_plain tk sd (map p_before ps) lb Nb) as Eb.
  pose proof (@tokenizer_call_plain tk sd (map p_between ps) lm Nm) as Em.
  rewrite Forall_map in Eb, Em. specialize (Eb Hb). specialize (Em Hm).
  pose proof (@tokenizer_call_padded tk sd kw_after (map p_after ps) eq_refl Na)
    as Ea. cbv zeta in Ea.
  assert (Tb : inferred_dtype (map (tokenize_ids tk) (map p_before ps)) = Int64).
  { apply (@inferred_dtype_uniform _ lb); [|now rewrite !Forall_map|exact Lb].
    destruct ps; [congruence | discriminate]. }
  assert (Tm : inferred_dtype (map (tokenize_ids tk) (map p_between ps)) = Int64).
  { apply (@inferred_dtype_uniform _ lm); [|now rewrite !Forall_map|exact Lm].
    destruct ps; [congruence | discriminate]. }
  assert (Ta : inferred_dtype (map (encode_one tk kw_after) (map p_after ps))
               = Int64).
  { apply (@inferred_dtype_int _ (suffix_ids self p0)); [|exact Hsuf].
    unfold suffix_ids. fold tk. rewrite map_map.
    apply (in_map (fun p => encode_one tk kw_after (p_after p))). exact Hin. }
  rewrite Tb in Eb. rewrite Tm in Em. rewrite Ta in Ea.
  rewrite (prompt_list_wrap_some _ _ _ _ _ _ Hne F).
  fold tk. rewrite Eb, Em, Ea. rewrite (breakpoint_ok _ Hbp).
  cbn [bind input_ids attention_mask input_ids_dtype embedding]. fold embed.
  match goal with |- context [torch_cat [?a; ?b; ?c; ?d; ?e]] =>
    destruct (@torch_cat5_ok _ a b c d e) as [we Hwe] end.
  1-4: unfold dim0, embed in *; cbn [rows tmap]; rewrite ?length_map; congruence.
  match goal with |- context [torch_cat [?a; atts_img; ?c; ?d; ?e]] =>
    destruct (@torch_cat5_ok _ a atts_img c d e) as [wa Hwa] end.
  1-4: unfold dim0 in *; cbn [rows]; rewrite ?length_map; congruence.
  rewrite Hwe, Hwa. cbn [bind].
  apply torch_cat5_inv in Hwe as (_ & _ & _ & _ & _ & Hd & Hr).
  do 3 eexists. exists we, wa.
  repeat split; try reflexivity; cbn [input_ids]; assumption.
Qed.

(** A raise of [prompt_list_wrap] is the format error exactly when the
    prompt list is non-empty and holds a malformed prompt. *)
Lemma format_error_not_ragged : format_error <> ragged_error.
Proof. discriminate. Qed.

Lemma format_error_not_cat : format_error <> cat_error.
Proof. discriminate. Qed.

(** C2, as amended.  [prompt_list_wrap] raises the format error if and only
    if the prompt list holds a malformed prompt: one whose split does not
    have exactly five segments with [<proteinHere>] second and
    [<structureHere>] fourth. *)
Theorem prompt_list_wrap_format_error prompt :
  prompt_list_wrap self sd img_embeds atts_img str_embeds atts_str prompt
    = Raise format_error
  <-> exists ps, prompt = Some ps /\ Exists malformed ps.
Proof.
  split.
  - intros H.
    apply prompt_list_wrap_raise in H as [[_ H] | [H | [H | [[H _] | H]]]];
      auto; discriminate H.
  - intros (ps & -> & E). unfold prompt_list_wrap.
    destruct ps as [|p ps]; [inversion E|]. cbn [truthy].
    now rewrite (split_prompts_malformed E).
Qed.

(** [prompt_list_wrap] adds the same lengths to the block and to its mask,
    and the sequence block is part of what it returns. *)
Lemma prompt_list_wrap_dim1 prompt e a :
  dim1 img_embeds = dim1 atts_img -> dim1 str_embeds = dim1 atts_str ->
  prompt_list_wrap self sd img_embeds atts_img str_embeds atts_str prompt
    = Ok (e, a) ->
  dim1 e = dim1 a /\ dim1 img_embeds <= dim1 e.
Proof.
  intros Hi Hs H.
  apply prompt_list_wrap_inv in H
    as [(ps & bef & bet & aft & _ & _ & _ & Tb & Tm & Ta & He & Ha)
       | (_ & He & Ha)].
  - apply torch_cat5_inv in He as (_ & _ & _ & _ & _ & -> & _).
    apply torch_cat5_inv in Ha as (_ & _ & _ & _ & _ & -> & _).
    apply tokenizer_call_inv in Tb as (_ & _ & -> & _).
    apply tokenizer_call_inv in Tm as (_ & _ & -> & _).
    apply tokenizer_call_inv in Ta as (_ & _ & -> & _).
    cbn [tmap dim1]. lia.
  - apply torch_cat2_inv in He as (_ & _ & -> & _).
    apply torch_cat2_inv in Ha as (_ & _ & -> & _). lia.
Qed.

(** C6.  The sequence length of an embedding block equals the length of its
    attention mask: for the pair [encode_protein] returns; for the pair
    [encode_str] returns, when the structure encoder returns one position per
    column of its padding mask; and for the pair [prompt_list_wrap] returns,
    in the prompt branch and in the branch without prompt, when this holds of
    the two blocks it is given. *)
Theorem embedding_block_invariant :
  (forall seqs,
     dim1 (fst (encode_protein self seqs)) = dim1 (snd (encode_protein self seqs)))
  /\ (str_encoder_keeps_length self ->
      forall str_tokens,
        dim1 (fst (encode_str self str_tokens))
        = dim1 (snd (encode_str self str_tokens)))
  /\ (forall prompt e a,
        dim1 img_embeds = dim1 atts_img -> dim1 str_embeds = dim1 atts_str ->
        prompt_list_wrap self sd img_embeds atts_img str_embeds atts_str prompt
          = Ok (e, a) ->
        dim1 e = dim1 a).
Proof.
  split; [reflexivity|]. split.
  - intros K [[c f] m]. exact (K c f (tensor_not m)).
  - intros prompt e a Hi Hs H. now apply (prompt_list_wrap_dim1 _ Hi Hs H).
Qed.

(** The pair [prompt_list_wrap] returns is made of rows of the announced
    length when the blocks it is given are. *)
Lemma prompt_list_wrap_well_shaped prompt e a :
  well_shaped img_embeds -> well_shaped atts_img ->
  well_shaped str_embeds -> well_shaped atts_str ->
  prompt_list_wrap self sd img_embeds atts_img str_embeds atts_str prompt
    = Ok (e, a) ->
  well_shaped e /\ well_shaped a.
Proof.
  intros W1 W2 W3 W4 H.
  assert (Wm : forall (X Y : Type) (f : X -> Y) t,
            well_shaped t -> well_shaped (tmap f t)).
  { intros X Y f t W. unfold well_shaped in *. cbn [tmap rows dim1].
    apply Forall_map. eapply Forall_impl; [|exact W].
    intros r. now rewrite length_map. }
  apply prompt_list_wrap_inv in H
    as [(ps & bef & bet & aft & _ & _ & _ & Tb & Tm & Ta & He & Ha)
       | (_ & He & Ha)].
  - apply tokenizer_call_inv in Tb as (_ & _ & _ & Wb & Wb').
    apply tokenizer_call_inv in Tm as (_ & _ & _ & Wc & Wc').
    apply tokenizer_call_inv in Ta as (_ & _ & _ & Wa & Wa').
    split.
    + eapply torch_cat_well_shaped; [exact He|]. repeat constructor; auto.
    + eapply torch_cat_well_shaped; [exact Ha|]. repeat constructor; auto.
  - split.
    + eapply torch_cat_well_shaped; [exact He|]. repeat constructor; auto.
    + eapply torch_cat_well_shaped; [exact Ha|]. repeat constructor; auto.
Qed.

End Assembly.

(* ================================================================== *)
(** ** Rows and entries *)

Lemma row_tmap {A B : Type} (f : A -> B) (t : tensor A) b :
  row (tmap f t) b = option_map (map f) (row t b).
Proof. unfold row. cbn [tmap rows]. apply nth_error_map. Qed.

Lemma row_full {A : Type} (n l : nat) (x : A) b :
  b < n -> row (full n l x) b = Some (repeat x l).
Proof.
  intros H. unfold row, full. cbn [rows].
  revert b H. induction n as [|n IH]; intros b H; [lia|].
  destruct b as [|b]; [reflexivity|]. simpl. apply IH. lia.
Qed.

Lemma row_some {A : Type} (t : tensor A) b :
  b < dim0 t -> exists r, row t b = Some r.
Proof.
  intros H. unfold row. destruct (nth_error (rows t) b) eqn:E; [eauto|].
  apply nth_error_None in E. unfold dim0 in H. lia.
Qed.

Lemma row_narrow {A : Type} n (t : tensor A) b :
  row (narrow n t) b = option_map (firstn n) (row t b).
Proof. unfold row. cbn [narrow rows]. apply nth_error_map. Qed.

Lemma zip_with_map_r {A B C : Type} (g : A -> B -> C) (h : A -> B) xs :
  zip_with g xs (map h xs) = map (fun x => g x (h x)) xs.
Proof. induction xs as [|x xs IH]; simpl; [reflexivity | now rewrite IH]. Qed.

(** [t.masked_fill(t == p, v)], entry by entry. *)
Lemma masked_fill_eq_scalar (t : tensor Z) (p v : Z) :
  masked_fill t (eq_scalar t p) v
  = tmap (fun y => if Z.eqb y p then v else y) t.
Proof.
  unfold masked_fill, eq_scalar, tmap. cbn [rows dim1]. f_equal.
  rewrite zip_with_map_r. apply map_ext. intros r.
  now rewrite zip_with_map_r.
Qed.

Lemma tmap_well_shaped {A B : Type} (f : A -> B) (t : tensor A) :
  well_shaped t -> well_shaped (tmap f t).
Proof.
  intros W. unfold well_shaped in *. cbn [tmap rows dim1].
  apply Forall_map. eapply Forall_impl; [|exact W].
  intros r. now rewrite length_map.
Qed.

Lemma full_well_shaped {A : Type} n l (x : A) : well_shaped (full n l x).
Proof.
  unfold well_shaped, full. cbn [rows dim1]. apply Forall_forall.
  intros r Hr. apply repeat_spec in Hr. subst. apply repeat_length.
Qed.

Lemma narrow_well_shaped {A : Type} n (t : tensor A) :
  well_shaped t -> well_shaped (narrow n t).
Proof.
  intros W. unfold well_shaped in *. cbn [narrow rows dim1].
  apply Forall_map. eapply Forall_impl; [|exact W].
  intros r Hr. rewrite length_firstn. now rewrite Hr.
Qed.

(* ================================================================== *)
(** ** The training step *)

Section Forward.
Variable self : ProteinChat.

Let tk := llama_tokenizer self.
Let embed := tmap (embed_tokens self).

(** With the keyword arguments of the target call, one text gives its first
    [max_txt_len] ids. *)
Lemma encode_one_target t :
  encode_one tk (kw_target self) t
  = firstn (max_txt_len self) (tokenize_ids tk t).
Proof.
  unfold encode_one. cbn [add_special_tokens truncation max_length kw_target].
  rewrite Nat.add_0_r.
  destruct (max_txt_len self <? List.length (tokenize_ids tk t)) eqn:E.
  - apply Nat.ltb_lt in E. f_equal. lia.
  - apply Nat.ltb_ge in E. now rewrite firstn_all2.
Qed.

(** The target call on a batch with a text returns: right padding up to the
    longest row. *)
Lemma target_call texts :
  texts <> [] ->
  let enc := map (fun t => firstn (max_txt_len self) (tokenize_ids tk t))
               (target_text self texts) in
  tokenizer_call tk PadRight (kw_target self) (target_text self texts) =
  Ok {| input_ids :=
          Tensor (longest enc)
            (map (fun ids => ids ++ repeat (pad_token_id tk)
                                      (longest enc - List.length ids)) enc);
        attention_mask :=
          Tensor (longest enc)
            (map (fun ids => repeat 1%Z (List.length ids)
                             ++ repeat 0%Z (longest enc - List.length ids)) enc);
        input_ids_dtype := inferred_dtype enc
     |}.
Proof.
  intros Hne enc.
  rewrite (@tokenizer_call_padded tk PadRight (kw_target self) _ eq_refl).
  - cbv zeta.
    replace (map (encode_one tk (kw_target self)) (target_text self texts))
      with enc
      by (unfold enc; apply map_ext; intros; now rewrite encode_one_target).
    reflexivity.
  - unfold target_text. destruct texts; [congruence | discriminate].
Qed.

(** The rows of the target call are the [target_ids] of the texts. *)
Lemma target_rows texts :
  map (fun t => firstn (max_txt_len self) (tokenize_ids tk t))
    (target_text self texts)
  = map (target_ids self) texts.
Proof. unfold target_text. rewrite map_map. reflexivity. Qed.

(** The dtype of the target ids: integers exactly when a target has an
    id. *)
Lemma target_dtype_int texts :
  (exists t, In t texts /\ target_ids self t <> []) ->
  inferred_dtype (map (target_ids self) texts) = Int64.
Proof.
  intros (t & Hin & Hne).
  apply (@inferred_dtype_int _ (target_ids self t)); [|exact Hne].
  now apply in_map.
Qed.

Lemma target_dtype_float texts :
  ~ (exists t, In t texts /\ target_ids self t <> []) ->
  inferred_dtype (map (target_ids self) texts) = Float32.
Proof.
  intros Hno.
  destruct (inferred_dtype_cases (map (target_ids self) texts))
    as [[E _] | [_ (r & Hin & Hne)]]; [exact E|].
  apply in_map_iff in Hin as (t & <- & Hin). exfalso. apply Hno. eauto.
Qed.

Variables (img_embeds : tensor (hidden self)) (atts_img : tensor Z).
Variable texts : list string.

Let bos_embeds : tensor (hidden self) :=
  embed (tmap (fun x => (x * bos_token_id tk)%Z) (ones (dim0 img_embeds) 1)).

(** What a returned record was built from; the target ids hold
    integers. *)
Lemma forward_inputs_inv_full inp :
  forward_inputs self img_embeds atts_img texts = Ok inp ->
  exists tok,
    tokenizer_call tk PadRight (kw_target self) (target_text self texts) = Ok tok /\
    torch_cat [full (dim0 atts_img) (dim1 atts_img + 1) (-100)%Z;
               tmap (fun y => if Z.eqb y (pad_token_id tk) then (-100)%Z else y)
                 (input_ids tok)]
      = Ok (labels inp) /\
    torch_cat [bos_embeds; img_embeds; embed (input_ids tok)]
      = Ok (inputs_embeds inp) /\
    torch_cat [narrow 1 atts_img; atts_img; attention_mask tok]
      = Ok (lm_attention_mask inp) /\
    input_ids_dtype tok = Int64.
Proof.
  unfold forward_inputs. fold tk. fold (target_text self texts).
  destruct (tokenizer_call tk PadRight (kw_target self) (target_text self texts))
    as [tok|]; [|discriminate]. cbn [bind].
  rewrite masked_fill_eq_scalar.
  change (tmap (fun _ : Z => (-100)%Z) (ones (dim0 atts_img) (dim1 atts_img + 1)))
    with (tmap (fun _ : Z => (-100)%Z) (full (dim0 atts_img) (dim1 atts_img + 1) 1%Z)).
  replace (tmap (fun _ : Z => (-100)%Z) (full (dim0 atts_img) (dim1 atts_img + 1) 1%Z))
    with (full (dim0 atts_img) (dim1 atts_img + 1) (-100)%Z)
    by (unfold tmap, full; cbn [rows dim1]; f_equal;
        rewrite map_repeat; f_equal; now rewrite map_repeat).
  destruct (torch_cat [full _ _ _; _]) as [l|] eqn:El; [|discriminate].
  cbn [bind].
  destruct (input_ids_dtype tok) eqn:Ed; [|discriminate].
  cbn [embedding bind].
  destruct (torch_cat [tmap _ (tmap _ _); _; _]) as [e|] eqn:Ee;
    [|discriminate]. cbn [bind].
  destruct (torch_cat [narrow _ _; _; _]) as [m|] eqn:Em; [|discriminate].
  cbn [bind]. intros [= <-]. exists tok. cbn. auto.
Qed.

Lemma forward_inputs_inv inp :
  forward_inputs self img_embeds atts_img texts = Ok inp ->
  exists tok,
    tokenizer_call tk PadRight (kw_target self) (target_text self texts) = Ok tok /\
    torch_cat [full (dim0 atts_img) (dim1 atts_img + 1) (-100)%Z;
               tmap (fun y => if Z.eqb y (pad_token_id tk) then (-100)%Z else y)
                 (input_ids tok)]
      = Ok (labels inp) /\
    torch_cat [bos_embeds; img_embeds; embed (input_ids tok)]
      = Ok (inputs_embeds inp) /\
    torch_cat [narrow 1 atts_img; atts_img; attention_mask tok]
      = Ok (lm_attention_mask inp).
Proof.
  intros H. apply forward_inputs_inv_full in H as (tok & H1 & H2 & H3 & H4 & _).
  exists tok. auto.
Qed.

(** [forward_inputs] returns when the fused block and its mask have one row
    per target text and a target has a token. *)
Lemma forward_inputs_ok :
  dim0 img_embeds = List.length texts -> dim0 atts_img = List.length texts ->
  (exists t, In t texts /\ target_ids self t <> []) ->
  exists inp, forward_inputs self img_embeds atts_img texts = Ok inp.
Proof.
  intros D1 D2 Ht. unfold forward_inputs. fold tk. fold (target_text self texts).
  assert (Hne : texts <> []).
  { destruct Ht as (t & Hin & _). intros ->. contradiction. }
  pose proof (target_call Hne) as Et. cbv zeta in Et.
  rewrite target_rows, (target_dtype_int _ Ht) in Et.
  destruct (tokenizer_call tk PadRight (kw_target self) (target_text self texts))
    as [tok|] eqn:Et'; [|discriminate].
  assert (Ed : input_ids_dtype tok = Int64)
    by (injection Et as Et; now rewrite Et).
  clear Et. rename Et' into Et.
  apply tokenizer_call_inv in Et as (T1 & T2 & _).
  unfold target_text in T1, T2. rewrite length_map in T1, T2.
  cbn [bind]. rewrite masked_fill_eq_scalar.
  match goal with |- context [torch_cat [?a; ?b]] =>
    destruct (@torch_cat2_ok _ a b) as [l ->] end.
  { unfold dim0 in *. cbn [rows tmap ones full].
    rewrite ?length_map, ?repeat_length. congruence. }
  cbn [bind]. rewrite Ed. cbn [embedding bind].
  match goal with |- context [torch_cat [?a; ?b; ?c]] =>
    destruct (@torch_cat3_ok _ a b c) as [e ->] end.
  1-2: unfold dim0 in *; cbn [rows tmap ones full];
       rewrite ?length_map, ?repeat_length; congruence.
  cbn [bind].
  match goal with |- context [torch_cat [?a; ?b; ?c]] =>
    destruct (@torch_cat3_ok _ a b c) as [m ->] end.
  1-2: unfold dim0 in *; cbn [rows narrow]; rewrite ?length_map; congruence.
  cbn [bind]. eauto.
Qed.

End Forward.

Lemma row_full_cases {A : Type} (n l : nat) (x : A) b :
  row (full n l x) b = if b <? n then Some (repeat x l) else None.
Proof.
  destruct (b <? n) eqn:E.
  - apply Nat.ltb_lt in E. now apply row_full.
  - apply Nat.ltb_ge in E. unfold row, full. cbn [rows].
    apply nth_error_None. now rewrite repeat_length.
Qed.

Lemma row_none {A : Type} (t : tensor A) b : dim0 t <= b -> row t b = None.
Proof. intros H. unfold row. now apply nth_error_None. Qed.

Lemma row_lt {A : Type} (t : tensor A) b r : row t b = Some r -> b < dim0 t.
Proof.
  intros H. unfold row in H. apply nth_error_Some. unfold dim0. congruence.
Qed.

Lemma entry_row {A : Type} (t : tensor A) b j :
  entry t b j = match row t b with Some r => nth_error r j | None => None end.
Proof. reflexivity. Qed.

Section ForwardRows.
Variable self : ProteinChat.

Let tk := llama_tokenizer self.

Variables (img_embeds : tensor (hidden self)) (atts_img : tensor Z).
Variable texts : list string.

(** The three tensors handed to the language model, dimension by dimension
    and row by row. *)
Lemma forward_inputs_spec inp :
  forward_inputs self img_embeds atts_img texts = Ok inp ->
  exists tok,
    tokenizer_call tk PadRight (kw_target self) (target_text self texts) = Ok tok /\
    dim0 img_embeds = List.length texts /\ dim0 atts_img = List.length texts /\
    dim1 (labels inp) = dim1 atts_img + 1 + dim1 (input_ids tok) /\
    dim1 (inputs_embeds inp) = 1 + dim1 img_embeds + dim1 (input_ids tok) /\
    dim1 (lm_attention_mask inp)
      = Nat.min 1 (dim1 atts_img) + dim1 atts_img + dim1 (input_ids tok) /\
    (forall b, row (labels inp) b =
       match row (input_ids tok) b with
       | Some ids =>
           Some (repeat (-100)%Z (dim1 atts_img + 1) ++ map (ignore_pad self) ids)
       | None => None
       end) /\
    (forall b, row (inputs_embeds inp) b =
       match row img_embeds b, row (input_ids tok) b with
       | Some x, Some ids =>
           Some (embed_tokens self (bos_token_id tk) :: x
                 ++ map (embed_tokens self) ids)
       | _, _ => None
       end) /\
    (forall b, row (lm_attention_mask inp) b =
       match row atts_img b, row (attention_mask tok) b with
       | Some x, Some m => Some (firstn 1 x ++ x ++ m)
       | _, _ => None
       end).
Proof.
  intros H. apply forward_inputs_inv in H as (tok & Et & Hl & He & Hm).
  exists tok. split; [exact Et|].
  apply tokenizer_call_inv in Et as (T1 & T2 & T3 & _).
  unfold target_text in T1, T2. rewrite length_map in T1, T2.
  apply torch_cat2_inv in Hl as (L0 & _ & L1 & LR).
  apply torch_cat3_inv in He as (E0 & E0' & _ & E1 & ER).
  apply torch_cat3_inv in Hm as (M0 & M0' & _ & M1 & MR).
  assert (Da : dim0 atts_img = List.length texts).
  { rewrite <- T1. unfold dim0 in *. cbn [rows tmap full] in L0.
    rewrite length_map, repeat_length in L0. exact L0. }
  assert (Di : dim0 img_embeds = List.length texts).
  { rewrite <- T1. unfold dim0 in *. cbn [rows tmap full ones] in E0'.
    rewrite !length_map, repeat_length in E0'. congruence. }
  repeat split; auto.
  - rewrite M1, T3. cbn [dim1 narrow]. lia.
  - intros b. unfold row at 1. rewrite LR, zip_with_nth.
    fold (row (full (dim0 atts_img) (dim1 atts_img + 1) (-100)%Z) b).
    match goal with |- context [nth_error (rows (tmap ?f ?t)) b] =>
      fold (row (tmap f t) b); rewrite (row_tmap f t b) end.
    rewrite row_full_cases.
    destruct (row (input_ids tok) b) as [ids|] eqn:Er; cbn [option_map].
    + apply row_lt in Er. rewrite T1, <- Da in Er.
      apply Nat.ltb_lt in Er. now rewrite Er.
    + now destruct (b <? dim0 atts_img).
  - intros b. rewrite ER, !row_tmap. unfold ones. rewrite row_full_cases.
    destruct (row img_embeds b) as [x|] eqn:Ex.
    + apply row_lt in Ex. apply Nat.ltb_lt in Ex. rewrite Ex.
      cbn [option_map map repeat].
      destruct (row (input_ids tok) b); cbn [option_map]; [|reflexivity].
      now rewrite Z.mul_1_l.
    + destruct (b <? dim0 img_embeds); reflexivity.
  - intros b. rewrite MR, row_narrow.
    destruct (row atts_img b); reflexivity.
Qed.

End ForwardRows.

(* ================================================================== *)
(** ** The labels, the inputs and the mask of the training step *)

Section ForwardClaims.
Variable self : ProteinChat.

Let tk := llama_tokenizer self.

Variables (img_embeds : tensor (hidden self)) (atts_img : tensor Z).
Variable texts : list string.

(** C3.  When the fused block and its mask have one row per target text and
    a target has a token, so that lines 289 to 328 do not raise,
    [forward] builds its labels, and at every position of the tokenized
    target the label is the sentinel -100 where the token id is the pad id
    and the token id itself elsewhere; target position [j] is position
    [dim1 atts_img + 1 + j] of the label tensor. *)
Theorem forward_pad_labels_ignored :
  dim0 img_embeds = List.length texts -> dim0 atts_img = List.length texts ->
  (exists t, In t texts /\ target_ids self t <> []) ->
  exists tok inp,
    tokenizer_call tk PadRight (kw_target self) (target_text self texts) = Ok tok /\
    forward_inputs self img_embeds atts_img texts = Ok inp /\
    forall b j id,
      entry (input_ids tok) b j = Some id ->
      entry (labels inp) b (dim1 atts_img + 1 + j)
      = Some (if Z.eqb id (pad_token_id tk) then (-100)%Z else id).
Proof.
  intros D1 D2 Ht. destruct (forward_inputs_ok self _ _ _ D1 D2 Ht) as [inp Hi].
  destruct (forward_inputs_spec _ _ _ Hi)
    as (tok & Et & _ & _ & _ & _ & _ & Rl & _ & _).
  exists tok, inp. repeat split; auto.
  intros b j id. rewrite !entry_row, Rl.
  destruct (row (input_ids tok) b) as [ids|]; [|discriminate].
  intros Hj. rewrite nth_error_app2; rewrite repeat_length; [|lia].
  replace (dim1 atts_img + 1 + j - (dim1 atts_img + 1)) with j by lia.
  rewrite nth_error_map, Hj. reflexivity.
Qed.

(** C4.  When the fused block and its mask have one row per target text and
    one sequence length, and a target has a token, the block of sentinels put in front of the target
    labels has sequence length [dim1 img_embeds + 1], and every label at the
    BOS position and at the positions of the fused block is -100. *)
Theorem forward_ignore_block_length :
  dim0 img_embeds = List.length texts -> dim0 atts_img = List.length texts ->
  dim1 img_embeds = dim1 atts_img ->
  (exists t, In t texts /\ target_ids self t <> []) ->
  exists tok inp,
    tokenizer_call tk PadRight (kw_target self) (target_text self texts) = Ok tok /\
    forward_inputs self img_embeds atts_img texts = Ok inp /\
    torch_cat [full (dim0 atts_img) (dim1 img_embeds + 1) (-100)%Z;
               tmap (ignore_pad self) (input_ids tok)] = Ok (labels inp) /\
    (forall b ids, row (input_ids tok) b = Some ids ->
       row (labels inp) b
       = Some (repeat (-100)%Z (dim1 img_embeds + 1)
               ++ map (ignore_pad self) ids)) /\
    forall b j, b < List.length texts -> j < dim1 img_embeds + 1 ->
      entry (labels inp) b j = Some (-100)%Z.
Proof.
  intros D1 D2 D3 Ht.
  destruct (forward_inputs_ok self _ _ _ D1 D2 Ht) as [inp Hi].
  destruct (forward_inputs_spec _ _ _ Hi)
    as (tok & Et & _ & _ & _ & _ & _ & Rl & _ & _).
  pose proof Hi as Hi'.
  apply forward_inputs_inv in Hi' as (tok' & Et' & Hl & _).
  assert (Eq : Ok tok' = Ok tok) by (rewrite <- Et, <- Et'; reflexivity).
  injection Eq as ->. clear Et'.
  exists tok, inp. rewrite D3. repeat split; auto.
  - intros b ids Hr. now rewrite Rl, Hr.
  - intros b j Hb Hj. rewrite entry_row, Rl.
    apply tokenizer_call_inv in Et as (T1 & _).
    unfold target_text in T1. rewrite length_map in T1.
    destruct (@row_some _ (input_ids tok) b) as [ids Hr]; [lia|].
    rewrite Hr, nth_error_app1 by (rewrite repeat_length; lia).
    apply nth_error_repeat. lia.
Qed.

(** C7.  When the fused block and its mask have one row per target text and
    a target has a token:
    the texts tokenized are the target strings with [end_sym] appended; every
    row of ids is the first [max_txt_len] ids of its text followed by pad ids
    up to the longest row, and its mask is ones followed by zeros; the
    language-model input is [torch.cat] of the BOS embedding, the fused block
    and the target embedding, and the attention mask is [torch.cat] of the
    BOS mask, the mask of the fused block and the mask of the target, row by
    row in that order. *)
Theorem forward_language_model_input :
  dim0 img_embeds = List.length texts -> dim0 atts_img = List.length texts ->
  (exists t, In t texts /\ target_ids self t <> []) ->
  exists tok inp,
    tokenizer_call tk PadRight (kw_target self)
      (map (fun t => (t ++ end_sym self)%string) texts) = Ok tok /\
    rows (input_ids tok)
      = map (fun t =>
               let ids := firstn (max_txt_len self)
                            (tokenize_ids tk (t ++ end_sym self)%string) in
               ids ++ repeat (pad_token_id tk)
                        (dim1 (input_ids tok) - List.length ids)) texts /\
    rows (attention_mask tok)
      = map (fun t =>
               let ids := firstn (max_txt_len self)
                            (tokenize_ids tk (t ++ end_sym self)%string) in
               repeat 1%Z (List.length ids)
               ++ repeat 0%Z (dim1 (input_ids tok) - List.length ids)) texts /\
    forward_inputs self img_embeds atts_img texts = Ok inp /\
    torch_cat [tmap (embed_tokens self) (full (dim0 img_embeds) 1 (bos_token_id tk));
               img_embeds; tmap (embed_tokens self) (input_ids tok)]
      = Ok (inputs_embeds inp) /\
    torch_cat [narrow 1 atts_img; atts_img; attention_mask tok]
      = Ok (lm_attention_mask inp) /\
    (forall b, row (inputs_embeds inp) b =
       match row img_embeds b, row (input_ids tok) b with
       | Some x, Some ids =>
           Some ([embed_tokens self (bos_token_id tk)] ++ x
                 ++ map (embed_tokens self) ids)
       | _, _ => None
       end) /\
    (forall b, row (lm_attention_mask inp) b =
       match row atts_img b, row (attention_mask tok) b with
       | Some x, Some m => Some (firstn 1 x ++ x ++ m)
       | _, _ => None
       end).
Proof.
  intros D1 D2 Ht. destruct (forward_inputs_ok self _ _ _ D1 D2 Ht) as [inp Hi].
  destruct (forward_inputs_spec _ _ _ Hi)
    as (tok & Et & _ & _ & _ & _ & _ & _ & Re & Rm).
  pose proof Hi as Hi'.
  apply forward_inputs_inv in Hi' as (tok' & Et' & _ & He & Hm).
  assert (Eq : Ok tok' = Ok tok) by (rewrite <- Et, <- Et'; reflexivity).
  injection Eq as ->. clear Et'.
  assert (Hne : texts <> []).
  { destruct Ht as (t & Hin & _). intros ->. contradiction. }
  assert (Htok := Et). rewrite (target_call self Hne) in Htok.
  injection Htok as Htok.
  exists tok, inp.
  split; [exact Et|].
  split; [rewrite <- Htok; cbn [input_ids rows dim1]; unfold target_text;
          now rewrite !map_map|].
  split; [rewrite <- Htok; cbn [input_ids attention_mask rows dim1];
          unfold target_text; now rewrite !map_map|].
  split; [exact Hi|].
  split; [|split; [exact Hm | split; [exact Re | exact Rm]]].
  rewrite <- He. do 2 f_equal.
  unfold tmap, ones, full. cbn [rows dim1 repeat]. f_equal.
  rewrite !map_repeat. cbn [map]. now rewrite Z.mul_1_l.
Qed.

(** C10.  When the fused block and its mask have one row per target text
    and a target has a token,
    the mask entry of the BOS position is the entry of the first column of
    the mask of the fused block in the same row, whatever its value; so it
    equals the entry of the first fused position, which comes next. *)
Theorem forward_bos_mask_copied :
  dim0 img_embeds = List.length texts -> dim0 atts_img = List.length texts ->
  (exists t, In t texts /\ target_ids self t <> []) ->
  exists inp,
    forward_inputs self img_embeds atts_img texts = Ok inp /\
    forall b x, entry atts_img b 0 = Some x ->
      entry (lm_attention_mask inp) b 0 = Some x /\
      entry (lm_attention_mask inp) b 1 = Some x.
Proof.
  intros D1 D2 Ht. destruct (forward_inputs_ok self _ _ _ D1 D2 Ht) as [inp Hi].
  destruct (forward_inputs_spec _ _ _ Hi)
    as (tok & Et & _ & _ & _ & _ & _ & _ & _ & Rm).
  exists inp. split; [exact Hi|].
  intros b x. rewrite !entry_row, Rm.
  destruct (row atts_img b) as [r|] eqn:Er; [|discriminate].
  apply tokenizer_call_inv in Et as (_ & T2 & _).
  unfold target_text in T2. rewrite length_map in T2.
  destruct (@row_some _ (attention_mask tok) b) as [m ->].
  { apply row_lt in Er. lia. }
  destruct r as [|y r]; [discriminate|]. intros [= ->]. auto.
Qed.

End ForwardClaims.

(* ================================================================== *)
(** ** The encoders *)

Lemma entry_tmap {A B : Type} (f : A -> B) (t : tensor A) b j :
  entry (tmap f t) b j = option_map f (entry t b j).
Proof.
  rewrite !entry_row, row_tmap. destruct (row t b) as [r|]; [|reflexivity].
  cbn [option_map]. apply nth_error_map.
Qed.

Lemma entry_full {A : Type} (n l : nat) (x : A) b j :
  b < n -> j < l -> entry (full n l x) b j = Some x.
Proof.
  intros Hb Hj. rewrite entry_row, row_full by exact Hb.
  now apply nth_error_repeat.
Qed.

Section Encoders.
Variable self : ProteinChat.

(** C5.  [encode_str] hands the structure encoder the elementwise negation
    of the padding mask and returns, next to the projected embeddings, the
    padding mask itself as integers: 1 where the padding mask is true, that
    is where the mask given to the encoder is false.  [encode_protein]
    returns a mask of the batch size and length of its embeddings whose
    entries are all 1. *)
Theorem encoder_attention_masks :
  (forall coords confidence padding_mask,
     encode_str self (coords, confidence, padding_mask)
     = (tmap (str_llama_proj self)
          (permute10
             (str_encoder self coords confidence (tensor_not padding_mask))),
        tensor_long padding_mask)
     /\ forall b j x,
          entry padding_mask b j = Some x ->
          entry (tensor_not padding_mask) b j = Some (negb x) /\
          entry (snd (encode_str self (coords, confidence, padding_mask))) b j
          = Some (if x then 1%Z else 0%Z))
  /\ (forall seqs,
        snd (encode_protein self seqs)
        = ones (dim0 (fst (encode_protein self seqs)))
               (dim1 (fst (encode_protein self seqs)))
        /\ dim0 (snd (encode_protein self seqs))
           = dim0 (fst (encode_protein self seqs))
        /\ dim1 (snd (encode_protein self seqs))
           = dim1 (fst (encode_protein self seqs))
        /\ forall b j,
             b < dim0 (fst (encode_protein self seqs)) ->
             j < dim1 (fst (encode_protein self seqs)) ->
             entry (snd (encode_protein self seqs)) b j = Some 1%Z).
Proof.
  split.
  - intros c f m. split; [reflexivity|].
    intros b j x Hx. cbn [encode_str snd]. unfold tensor_not, tensor_long.
    now rewrite !entry_tmap, Hx.
  - intros seqs. cbn [encode_protein fst snd]. repeat split.
    + unfold dim0, ones, full. cbn [rows]. now rewrite repeat_length.
    + intros b j Hb Hj. now apply entry_full.
Qed.



(** After a call that got as far as the targets, the tokenizer pads on the
    right. *)
Lemma forward_padding_side sd samples r sd' :
  forward self sd samples = (r, sd') ->
  sd' = PadRight \/ (sd' = sd /\ exists e, r = Raise e).
Proof.
  unfold forward.
  destruct (forward_fused self sd samples) as [[img atts]|].
  - intros [= _ <-]. auto.
  - intros [= <- <-]. eauto.
Qed.

End Encoders.

(** The three tensors are made of rows of the announced length when the
    fused block and its mask are. *)
Lemma forward_inputs_well_shaped (self : ProteinChat)
    (img_embeds : tensor (hidden self)) (atts_img : tensor Z) texts inp :
  well_shaped img_embeds -> well_shaped atts_img ->
  forward_inputs self img_embeds atts_img texts = Ok inp ->
  well_shaped (labels inp) /\ well_shaped (inputs_embeds inp) /\
  well_shaped (lm_attention_mask inp).
Proof.
  intros Wi Wa H. apply forward_inputs_inv in H as (tok & Et & Hl & He & Hm).
  apply tokenizer_call_inv in Et as (_ & _ & _ & W1 & W2).
  split; [|split].
  - eapply torch_cat_well_shaped; [exact Hl|].
    apply Forall_cons; [|apply Forall_cons; [|apply Forall_nil]];
      auto using full_well_shaped, tmap_well_shaped.
  - eapply torch_cat_well_shaped; [exact He|]. unfold ones.
    apply Forall_cons; [|apply Forall_cons; [|apply Forall_cons;
                                               [|apply Forall_nil]]];
      auto using full_well_shaped, tmap_well_shaped.
  - eapply torch_cat_well_shaped; [exact Hm|].
    apply Forall_cons; [|apply Forall_cons; [|apply Forall_cons;
                                               [|apply Forall_nil]]];
      auto using narrow_well_shaped.
Qed.

(* ================================================================== *)
(** ** The statements at the small instance *)

Lemma toy_good_well_formed : PromptShape.well_formed Toy.good.
Proof. apply ReFacts.splits_ok_well_formed. reflexivity. Qed.

Lemma toy_contracts :
  str_encoder_keeps_length Toy.model /\ protein_encoder_nonempty Toy.model.
Proof.
  split.
  - intros c f m. unfold dim0. cbn. now rewrite length_map, length_seq.
  - intros toks. cbn. lia.
Qed.

Lemma toy_texts_token :
  exists t, In t Toy.texts /\ target_ids Toy.model t <> [].
Proof. exists "ab". split; [now left | discriminate]. Qed.

Lemma toy_suffix_token :
  exists p, In p [Toy.good; Toy.good] /\ suffix_ids Toy.model p <> [].
Proof. exists Toy.good. split; [now left | discriminate]. Qed.

(** Two well-formed prompts whose prefixes have one token and none: the
    tokenizer call without padding raises.  One well-formed prompt against
    blocks of batch size two: [torch.cat] raises.  Two equal well-formed
    prompts in a process whose debugger has nothing to read: [breakpoint()]
    ends the call.  Two equal well-formed prompts that start with
    [<proteinHere>]: the ids of the prefixes are a float tensor and the
    embedding lookup raises. *)
Lemma prompt_list_wrap_well_formed_raises :
  (Forall PromptShape.well_formed Toy.ragged_prefix /\
   dim0 Toy.img = List.length Toy.ragged_prefix /\
   prompt_list_wrap Toy.model PadRight Toy.img Toy.atts_img Toy.str
     Toy.atts_str (Some Toy.ragged_prefix) = Raise ragged_error)
  /\
  (Forall PromptShape.well_formed [Toy.good] /\
   prompt_list_wrap Toy.model PadRight Toy.img Toy.atts_img Toy.str
     Toy.atts_str (Some [Toy.good]) = Raise cat_error)
  /\
  (Forall PromptShape.well_formed [Toy.good; Toy.good] /\
   dim0 Toy.img = List.length [Toy.good; Toy.good] /\
   prompt_list_wrap ToyMore.batch_model PadRight Toy.img Toy.atts_img Toy.str
     Toy.atts_str (Some [Toy.good; Toy.good]) = Raise BdbQuit)
  /\
  (Forall PromptShape.well_formed [ToyMore.no_prefix; ToyMore.no_prefix] /\
   dim0 Toy.img = List.length [ToyMore.no_prefix; ToyMore.no_prefix] /\
   prompt_list_wrap Toy.model PadRight Toy.img Toy.atts_img Toy.str
     Toy.atts_str (Some [ToyMore.no_prefix; ToyMore.no_prefix])
   = Raise float_index_error).
Proof.
  split; [|split; [|split]].
  - split; [|split; reflexivity].
    constructor; [|constructor; [|constructor]];
      apply ReFacts.splits_ok_well_formed; reflexivity.
  - split; [|reflexivity].
    constructor; [exact toy_good_well_formed | constructor].
  - split; [|split; reflexivity].
    constructor; [|constructor; [|constructor]]; exact toy_good_well_formed.
  - split; [|split; reflexivity].
    constructor; [|constructor; [|constructor]];
      apply ReFacts.splits_ok_well_formed; reflexivity.
Qed.

(** Two prompts that pass the test of the loop, with middles of one token
    and none: [prompt_list_wrap] raises a [ValueError] all the same. *)
Lemma prompt_list_wrap_accepted_raises :
  Forall accepted Toy.ragged_middle /\
  dim0 Toy.img = List.length Toy.ragged_middle /\
  prompt_list_wrap Toy.model PadRight Toy.img Toy.atts_img Toy.str
    Toy.atts_str (Some Toy.ragged_middle) = Raise ragged_error.
Proof.
  split; [|split; reflexivity].
  constructor; [|constructor; [|constructor]]; reflexivity.
Qed.

Lemma prompt_list_wrap_assembles_witness :
  exists e a,
    prompt_list_wrap Toy.model PadLeft Toy.img Toy.atts_img Toy.str
      Toy.atts_str (Some [Toy.good; Toy.good]) = Ok (e, a) /\
    dim1 e = 1 + dim1 Toy.img + 2 + dim1 Toy.str + 2.
Proof.
  destruct (@prompt_list_wrap_assembles Toy.model PadLeft Toy.img Toy.str
              Toy.atts_img Toy.atts_str [Toy.good; Toy.good] 1 2)
    as (bef & bet & aft & e & a & _ & _ & Ha & H & L1 & L2 & L & _).
  - reflexivity.
  - discriminate.
  - constructor; [|constructor; [|constructor]]; exact toy_good_well_formed.
  - constructor; [|constructor; [|constructor]]; reflexivity.
  - constructor; [|constructor; [|constructor]]; reflexivity.
  - lia.
  - lia.
  - exact toy_suffix_token.
  - reflexivity.
  - reflexivity.
  - reflexivity.
  - reflexivity.
  - exists e, a. split; [exact H|].
    rewrite L, L1, L2. vm_compute in Ha. injection Ha as <-. reflexivity.
Defined.

Lemma prompt_list_wrap_format_error_witness :
  prompt_list_wrap Toy.model PadRight Toy.img Toy.atts_img Toy.str
    Toy.atts_str (Some [Toy.good; "only <proteinHere>"]) = Raise format_error.
Proof.
  apply (proj2 (prompt_list_wrap_format_error Toy.model PadRight Toy.img
                  Toy.str Toy.atts_img Toy.atts_str
                  (Some [Toy.good; "only <proteinHere>"]))).
  exists [Toy.good; "only <proteinHere>"]. split; [reflexivity|].
  apply Exists_cons_tl, Exists_cons_hd. reflexivity.
Defined.

Lemma forward_pad_labels_ignored_witness :
  exists inp,
    forward_inputs Toy.model Toy.img Toy.atts_img Toy.texts = Ok inp /\
    entry (labels inp) 0 (dim1 Toy.atts_img + 1 + 3) = Some (-100)%Z /\
    entry (labels inp) 0 (dim1 Toy.atts_img + 1 + 2) = Some 10%Z.
Proof.
  destruct (@forward_pad_labels_ignored Toy.model Toy.img Toy.atts_img
              Toy.texts eq_refl eq_refl toy_texts_token)
    as (tok & inp & Et & Hi & H).
  exists inp. split; [exact Hi|].
  vm_compute in Et. injection Et as <-.
  split; [exact (H 0 3 2%Z eq_refl) | exact (H 0 2 10%Z eq_refl)].
Defined.

Lemma forward_ignore_block_length_witness :
  exists inp,
    forward_inputs Toy.model Toy.img Toy.atts_img Toy.texts = Ok inp /\
    entry (labels inp) 1 0 = Some (-100)%Z /\
    entry (labels inp) 1 (dim1 Toy.img) = Some (-100)%Z.
Proof.
  destruct (@forward_ignore_block_length Toy.model Toy.img Toy.atts_img
              Toy.texts eq_refl eq_refl eq_refl toy_texts_token)
    as (tok & inp & _ & Hi & _ & _ & H).
  exists inp. split; [exact Hi|].
  split; apply H; cbn; lia.
Defined.

Lemma embedding_block_invariant_witness :
  dim1 (fst (encode_str Toy.model Toy.one_structure))
  = dim1 (snd (encode_str Toy.model Toy.one_structure)) /\
  match prompt_list_wrap Toy.model PadLeft Toy.img Toy.atts_img Toy.str
          Toy.atts_str (Some [Toy.good; Toy.good]) with
  | Ok (e, a) => dim1 e = dim1 a
  | Raise _ => False
  end.
Proof.
  destruct (embedding_block_invariant Toy.model PadLeft Toy.img Toy.str
              Toy.atts_img Toy.atts_str) as (_ & Hs & Hw).
  split.
  - apply Hs. exact (proj1 toy_contracts).
  - destruct (prompt_list_wrap Toy.model PadLeft Toy.img Toy.atts_img Toy.str
                Toy.atts_str (Some [Toy.good; Toy.good]))
      as [[e a]|] eqn:E.
    + exact (Hw _ e a eq_refl eq_refl E).
    + vm_compute in E. discriminate E.
Defined.

Lemma forward_language_model_input_witness :
  exists inp,
    forward_inputs Toy.model Toy.img Toy.atts_img Toy.texts = Ok inp /\
    row (inputs_embeds inp) 0
    = Some ([1001] ++ [11; 12] ++ [1097; 1098; 1010; 1002])%Z /\
    row (lm_attention_mask inp) 0
    = Some ([1] ++ [1; 1] ++ [1; 1; 1; 0])%Z.
Proof.
  destruct (@forward_language_model_input Toy.model Toy.img Toy.atts_img
              Toy.texts eq_refl eq_refl toy_texts_token)
    as (tok & inp & Et & _ & _ & Hi & _ & _ & He & Hm).
  exists inp. split; [exact Hi|].
  vm_compute in Et. injection Et as <-.
  split; [rewrite He | rewrite Hm]; reflexivity.
Defined.

Lemma forward_bos_mask_copied_witness :
  exists inp,
    forward_inputs Toy.model Toy.img Toy.atts_zero Toy.texts = Ok inp /\
    entry (lm_attention_mask inp) 0 0 = Some 0%Z /\
    entry (lm_attention_mask inp) 0 1 = Some 0%Z.
Proof.
  destruct (@forward_bos_mask_copied Toy.model Toy.img Toy.atts_zero
              Toy.texts eq_refl eq_refl toy_texts_token) as (inp & Hi & H).
  exists inp. split; [exact Hi|]. apply H. reflexivity.
Defined.

Lemma encoder_attention_masks_witness :
  entry (snd (encode_str Toy.model Toy.one_structure)) 0 1 = Some 0%Z /\
  entry (snd (encode_protein Toy.model ["MK"; "A"])) 1 2 = Some 1%Z.
Proof.
  destruct (encoder_attention_masks Toy.model) as (Hs & Hp).
  split.
  - destruct (Hs (Tensor 2 [[0%Z; 0%Z]]) (Tensor 2 [[9%Z; 9%Z]])
                 (Tensor 2 [[true; false]])) as (_ & H).
    exact (proj2 (H 0 1 false eq_refl)).
  - destruct (Hp ["MK"; "A"]) as (_ & _ & _ & H). apply H; cbn; lia.
Defined.


(* ================================================================== *)
(** ** More on the split of a prompt *)

Section SplitMore.
Import Re PromptShape Segments.

Lemma prefix_app d u r : prefix d u = true -> prefix d (u ++ r) = true.
Proof.
  revert u. induction d as [|a d IH]; intros u H;
    [destruct (u ++ r)%string; reflexivity|].
  destruct u as [|c u]; [discriminate|].
  apply ReFacts.prefix_cons_inv in H as [-> H].
  cbn [append prefix]. destruct (ascii_dec c c); [auto | congruence].
Qed.

Lemma prefix_refl_app d r : prefix d (d ++ r) = true.
Proof.
  induction d as [|a d IH]; [destruct r; reflexivity|].
  cbn [append prefix]. destruct (ascii_dec a a); [auto | congruence].
Qed.

(** A prefix of [u ++ r] is a prefix of [u], or runs over the end of [u]. *)
Lemma prefix_app_inv d u r :
  prefix d (u ++ r) = true ->
  prefix d u = true \/
  exists d2, d = (u ++ d2)%string /\ d2 <> "" /\ prefix d2 r = true.
Proof.
  revert u. induction d as [|a d IH]; intros u H;
    [left; destruct u; reflexivity|].
  destruct u as [|c u].
  - right. exists (String a d). cbn [append] in *. repeat split; auto.
    discriminate.
  - cbn [append] in H. apply ReFacts.prefix_cons_inv in H as [-> H].
    destruct (IH u H) as [Hp | (d2 & -> & Hne & Hp)].
    + left. cbn [prefix]. destruct (ascii_dec c c); [auto | congruence].
    + right. exists d2. cbn [append]. auto.
Qed.

Lemma no_open_in_app u v :
  no_open_in (u ++ v) = true -> no_open_in v = true.
Proof.
  induction u as [|c u IH]; [auto|]. cbn [append no_open_in].
  intros H. apply andb_true_iff in H as [_ H]. auto.
Qed.

(** A placeholder that is no prefix of [String c u] is no prefix of
    [String c u] followed by a text that opens with [<]. *)
Lemma match_here_app_none c u r :
  opens r -> match_here (String c u) = None ->
  match_here (String c u ++ r) = None.
Proof.
  intros Hr Hn.
  destruct (ReFacts.match_here_cases (String c u))
    as [(E & _) | [(E & _) | (_ & Hp & Hs)]]; try congruence.
  assert (K : forall d tl, d = String "<"%char tl -> no_open_in tl = true ->
            prefix d (String c u) = false ->
            prefix d (String c u ++ r) = false).
  { intros d tl -> Htl Hd.
    destruct (prefix (String "<"%char tl) (String c u ++ r)) eqn:E;
      [|reflexivity].
    apply prefix_app_inv in E as [E | (d2 & Ed & Hne & Hp2)]; [congruence|].
    exfalso. cbn [append] in Ed. injection Ed as _ ->.
    apply no_open_in_app in Htl.
    destruct d2 as [|x d2]; [congruence|].
    destruct r as [|y r]; [discriminate|].
    apply ReFacts.prefix_cons_inv in Hp2 as [-> _].
    cbn in Hr. subst y. discriminate Htl. }
  unfold match_here.
  rewrite (K proteinHere "proteinHere>" eq_refl eq_refl Hp).
  now rewrite (K structureHere "structureHere>" eq_refl eq_refl Hs).
Qed.

Lemma free_placeholders t : free t <-> placeholders t = [].
Proof.
  destruct (ReFacts.count_placeholders t) as (_ & _ & L). unfold free. split.
  - intros [H1 H2]. rewrite H1, H2 in L. now destruct (placeholders t).
  - intros E. rewrite E in L. cbn in L. lia.
Qed.

Lemma free_cons c t :
  free (String c t) <-> match_here (String c t) = None /\ free t.
Proof.
  rewrite !free_placeholders. cbn [placeholders].
  destruct (match_here (String c t)); split; intros H;
    try discriminate; try tauto.
  destruct H; discriminate.
Qed.

(** A text without placeholder, followed by a text that opens with [<],
    holds no start of a placeholder. *)
Lemma free_quiet t r : free t -> opens r -> quiet t r.
Proof.
  intros Hf Hr. induction t as [|c t IH]; [exact I|].
  apply free_cons in Hf as [Hn Hf]. cbn [quiet]. split; auto.
  now apply match_here_app_none.
Qed.

Lemma quiet_free t r : quiet t r -> free t.
Proof.
  induction t as [|c t IH]; [intros _; split; reflexivity|].
  cbn [quiet]. intros [Hn Hq]. apply free_cons. split; auto.
  destruct (ReFacts.match_here_cases (String c t ++ r))
    as [(E & _) | [(E & _) | (_ & Hp & Hs)]]; try congruence.
  unfold match_here.
  destruct (prefix proteinHere (String c t)) eqn:E1.
  { apply (prefix_app _ _ r) in E1. congruence. }
  destruct (prefix structureHere (String c t)) eqn:E2; [|reflexivity].
  apply (prefix_app _ _ r) in E2. congruence.
Qed.

Lemma quiet_snoc t c r :
  quiet t (String c r) -> match_here (String c r) = None ->
  quiet (t ++ String c "") r.
Proof.
  intros Hq Hn. induction t as [|x t IH].
  - cbn. auto.
  - cbn [quiet append] in *. destruct Hq as [H1 H2]. split; auto.
    rewrite ReFacts.append_assoc_str. exact H1.
Qed.

(** Over a text that holds no start of a placeholder the scanner only
    collects. *)
Lemma split_from_quiet t : forall cur r,
  quiet t r ->
  Re.split_from 0 cur (t ++ r) = Re.split_from 0 (cur ++ t) r.
Proof.
  induction t as [|c t IH]; intros cur r Hq.
  - now rewrite ReFacts.append_empty_right.
  - cbn [quiet] in Hq. destruct Hq as [Hn Hq].
    cbn [append Re.split_from]. cbn [append] in Hn. rewrite Hn.
    rewrite (IH _ _ Hq), ReFacts.append_assoc_str. reflexivity.
Qed.

Lemma match_here_proteinHere r :
  match_here (proteinHere ++ r) = Some proteinHere.
Proof. unfold match_here. now rewrite prefix_refl_app. Qed.

Lemma match_here_structureHere r :
  match_here (structureHere ++ r) = Some structureHere.
Proof.
  unfold match_here. rewrite prefix_refl_app.
  replace (prefix proteinHere (structureHere ++ r)) with false; reflexivity.
Qed.

(** At a placeholder the scanner emits what it collected and the
    placeholder, and goes on behind it. *)
Lemma split_from_proteinHere cur r :
  Re.split_from 0 cur (proteinHere ++ r)
  = cur :: proteinHere :: Re.split_from 0 "" r.
Proof.
  pose proof (match_here_proteinHere r) as E.
  change (proteinHere ++ r)%string
    with (String "<"%char ("proteinHere>" ++ r)) in *.
  cbn [Re.split_from]. rewrite E. reflexivity.
Qed.

Lemma split_from_structureHere cur r :
  Re.split_from 0 cur (structureHere ++ r)
  = cur :: structureHere :: Re.split_from 0 "" r.
Proof.
  pose proof (match_here_structureHere r) as E.
  change (structureHere ++ r)%string
    with (String "<"%char ("structureHere>" ++ r)) in *.
  cbn [Re.split_from]. rewrite E. reflexivity.
Qed.

(** Every text segment of a split is free of placeholders. *)
Lemma split_from_texts_free s : forall k cur,
  no_open k s = true -> (k = 0 -> quiet cur s) -> (k <> 0 -> cur = "") ->
  Forall free (texts (Re.split_from k cur s)).
Proof.
  induction s as [|c s IH]; intros k cur Hk Hq Hc.
  - destruct k; [|discriminate]. cbn. constructor; [|constructor].
    now apply (quiet_free cur ""), Hq.
  - destruct k as [|k].
    + specialize (Hq eq_refl). cbn [Re.split_from].
      destruct (match_here (String c s)) as [d|] eqn:E.
      * cbn [texts]. constructor; [now apply (quiet_free cur (String c s))|].
        apply ReFacts.match_here_inv in E as (_ & _ & _ & Hn).
        apply IH; [exact Hn | intros _; exact I | reflexivity].
      * apply IH; [reflexivity | intros _; now apply quiet_snoc | congruence].
    + cbn [no_open] in Hk. apply andb_true_iff in Hk as [_ Hk].
      rewrite (Hc (Nat.neq_succ_0 k)). cbn [Re.split_from].
      apply IH; [exact Hk | intros _; exact I | reflexivity].
Qed.

Lemma re_split_texts_free p : Forall free (texts (re_split p)).
Proof.
  apply split_from_texts_free; [reflexivity | intros _; exact I | congruence].
Qed.

(** X1.  The pieces of a split, put together again, are the prompt: nothing
    is lost and nothing is added by [re.split]. *)
Theorem re_split_join p : String.concat "" (re_split p) = p.
Proof. apply ReFacts.re_split_concat. Qed.

(** X2.  A split has [2 k + 1] pieces, where [k] is the number of positions
    of the prompt at which a placeholder starts; the pieces at the odd
    positions are these placeholders, in the order in which they occur. *)
Theorem re_split_pieces p :
  List.length (re_split p)
  = 2 * (occurrences proteinHere p + occurrences structureHere p) + 1
  /\ delimiters (re_split p) = placeholders p
  /\ Forall (fun d => d = proteinHere \/ d = structureHere)
       (delimiters (re_split p)).
Proof.
  destruct (ReFacts.re_split_delimiters p) as [D L].
  destruct (ReFacts.count_placeholders p) as (_ & _ & C).
  rewrite L, C, D. repeat split. apply ReFacts.placeholders_either.
Qed.

(** X3.  The test of the loop accepts a prompt if and only if the prompt
    contains exactly one [<proteinHere>] and exactly one [<structureHere>],
    the first before the second. *)
Theorem accepted_iff_well_formed p : accepted p <-> well_formed p.
Proof. apply ReFacts.splits_ok_well_formed. Qed.

(** X4.  An accepted prompt is its prefix, [<proteinHere>], its middle,
    [<structureHere>] and its suffix, in this order, and none of the three
    segments contains a placeholder. *)
Theorem accepted_segments p :
  accepted p ->
  p = (p_before p ++ proteinHere ++ p_between p ++ structureHere
       ++ p_after p)%string
  /\ free (p_before p) /\ free (p_between p) /\ free (p_after p).
Proof.
  intros H. split.
  - now apply ReFacts.well_formed_segments, ReFacts.splits_ok_well_formed.
  - pose proof (re_split_texts_free p) as F.
    unfold accepted, splits_ok in H. unfold p_before, p_between, p_after.
    apply andb_true_iff in H as [H _]. apply andb_true_iff in H as [H5 _].
    apply Nat.eqb_eq in H5.
    destruct (re_split p) as [|a [|b [|c [|d [|e [|? ?]]]]]];
      try discriminate.
    cbn in F |- *. inversion F as [|? ? Fa F']; subst.
    inversion F' as [|? ? Fc F'']; subst. inversion F''; subst. auto.
Qed.

(** X5.  Conversely, three texts without placeholder, put around the two
    placeholders, split into exactly these five pieces; the prompt is
    accepted and its segments are the three texts. *)
Theorem re_split_of_segments a b c :
  free a -> free b -> free c ->
  let p := (a ++ proteinHere ++ b ++ structureHere ++ c)%string in
  re_split p = [a; proteinHere; b; structureHere; c]
  /\ accepted p
  /\ p_before p = a /\ p_between p = b /\ p_after p = c.
Proof.
  intros Fa Fb Fc p.
  assert (E : re_split p = [a; proteinHere; b; structureHere; c]).
  { unfold p, re_split.
    rewrite split_from_quiet by (apply free_quiet; [exact Fa | reflexivity]).
    rewrite split_from_proteinHere.
    rewrite split_from_quiet by (apply free_quiet; [exact Fb | reflexivity]).
    rewrite split_from_structureHere.
    rewrite <- (ReFacts.append_empty_right c) at 1.
    rewrite split_from_quiet by (apply free_quiet; [exact Fc | exact I]).
    reflexivity. }
  unfold accepted, p_before, p_between, p_after. rewrite E.
  repeat split.
Qed.

End SplitMore.

(* ================================================================== *)
(** ** More on [prompt_list_wrap] *)

Lemma longest_uniform (rs : list (list Z)) l :
  rs <> [] -> Forall (fun r => List.length r = l) rs -> longest rs = l.
Proof.
  intros Hne F. induction F as [|r rs Hr F IH]; [congruence|].
  cbn [longest fold_right]. destruct rs as [|r' rs].
  - cbn. lia.
  - fold (longest (r' :: rs)). rewrite IH by discriminate. lia.
Qed.

Lemma pad_ids_full sd pad l ids :
  List.length ids = l -> pad_ids sd pad l ids = ids.
Proof.
  intros <-. destruct sd; cbn [pad_ids]; rewrite Nat.sub_diag; cbn [repeat];
    [reflexivity | apply app_nil_r].
Qed.

Lemma pad_mask_full sd l ids :
  List.length ids = l -> pad_mask sd l ids = repeat 1%Z l.
Proof.
  intros <-. destruct sd; cbn [pad_mask]; rewrite Nat.sub_diag; cbn [repeat];
    [reflexivity | apply app_nil_r].
Qed.

(** A padded call on texts of one number of ids does not pad: the side does
    not matter. *)
Lemma tokenizer_call_padded_uniform tk sd kw texts l :
  padding kw = true ->
  Forall (fun t => List.length (encode_one tk kw t) = l) texts ->
  tokenizer_call tk sd kw texts = tokenizer_call tk PadRight kw texts.
Proof.
  intros Hp F. destruct texts as [|t texts]; [reflexivity|].
  assert (Hne : t :: texts <> []) by discriminate.
  rewrite !(@tokenizer_call_padded tk _ kw (t :: texts) Hp Hne). cbv zeta.
  set (enc := map (encode_one tk kw) (t :: texts)).
  assert (Fe : Forall (fun r => List.length r = l) enc)
    by (unfold enc; now apply Forall_map).
  assert (El : longest enc = l)
    by (apply longest_uniform; [discriminate | exact Fe]).
  rewrite El.
  replace (map (pad_ids sd (pad_token_id tk) l) enc)
    with (map (pad_ids PadRight (pad_token_id tk) l) enc).
  - replace (map (pad_mask sd l) enc) with (map (pad_mask PadRight l) enc);
      [reflexivity|].
    apply map_ext_Forall. eapply Forall_impl; [|exact Fe].
    intros r Hr. now rewrite !pad_mask_full.
  - apply map_ext_Forall. eapply Forall_impl; [|exact Fe].
    intros r Hr. now rewrite !pad_ids_full.
Qed.

(** A call without padding that returns was given texts of one number of
    ids. *)
Lemma tokenizer_call_plain_inv tk sd texts tok :
  tokenizer_call tk sd kw_plain texts = Ok tok ->
  Forall (fun t => List.length (tokenize_ids tk t) = dim1 (input_ids tok))
    texts.
Proof.
  unfold tokenizer_call. destruct texts as [|t0 texts0]; [discriminate|].
  set (texts := t0 :: texts0). cbn [padding kw_plain].
  destruct (to_tensor (map (encode_one tk kw_plain) texts)) as [[ids d1]|] eqn:E;
    [|discriminate]. cbn [bind].
  destruct (to_tensor (map (fun r => repeat 1%Z (List.length r)) _))
    as [[mask d2]|]; [|discriminate]. cbn [bind].
  intros [= <-]. cbn [input_ids].
  apply to_tensor_inv in E as (R & _ & W & _).
  unfold well_shaped in W. rewrite R in W.
  now apply Forall_map in W.
Qed.

Section PromptMore.
Variable self : ProteinChat.
Variable sd : side.
Variables (img_embeds str_embeds : tensor (hidden self)).
Variables (atts_img atts_str : tensor Z).

Let tk := llama_tokenizer self.
Let embed := tmap (embed_tokens self).

(** The prompt branch where the debugger hook returns, for accepted
    prompts whose prefixes have [lb] tokens and whose middles have [lm]
    tokens, neither zero, and one of whose suffixes has an id, with the three
    tokenizer calls carried out. *)
Lemma prompt_list_wrap_explicit ps lb lm :
  breakpoint_returns self = true ->
  ps <> [] -> Forall accepted ps ->
  Forall (fun p => List.length (tokenize_ids tk (p_before p)) = lb) ps ->
  Forall (fun p => List.length (tokenize_ids tk (p_between p)) = lm) ps ->
  0 < lb -> 0 < lm ->
  (exists p, In p ps /\ suffix_ids self p <> []) ->
  let la := longest (map (suffix_ids self) ps) in
  prompt_list_wrap self sd img_embeds atts_img str_embeds atts_str (Some ps) =
  (wrapped_embeds <-
     torch_cat
       [embed (Tensor lb (map (fun p => tokenize_ids tk (p_before p)) ps));
        img_embeds;
        embed (Tensor lm (map (fun p => tokenize_ids tk (p_between p)) ps));
        str_embeds;
        embed (Tensor la
                 (map (fun p => pad_ids sd (pad_token_id tk) la
                                  (suffix_ids self p)) ps))] ;;
   wrapped_atts <-
     torch_cat
       [Tensor lb (map (fun _ => repeat 1%Z lb) ps);
        atts_img;
        Tensor lm (map (fun _ => repeat 1%Z lm) ps);
        atts_str;
        Tensor la (map (fun p => pad_mask sd la (suffix_ids self p)) ps)] ;;
   Ok (wrapped_embeds, wrapped_atts)).
Proof.
  intros Hbp Hne F Hb Hm Lb Lm (p0 & Hin & Hsuf) la.
  assert (Nb : map p_before ps <> []) by (destruct ps; [congruence|discriminate]).
  assert (Nm : map p_between ps <> []) by (destruct ps; [congruence|discriminate]).
  assert (Na : map p_after ps <> []) by (destruct ps; [congruence|discriminate]).
  pose proof (@tokenizer_call_plain tk sd (map p_before ps) lb Nb) as Eb.
  pose proof (@tokenizer_call_plain tk sd (map p_between ps) lm Nm) as Em.
  rewrite Forall_map in Eb, Em. specialize (Eb Hb). specialize (Em Hm).
  pose proof (@tokenizer_call_padded tk sd kw_after (map p_after ps) eq_refl Na)
    as Ea. cbv zeta in Ea.
  assert (Tb : inferred_dtype (map (tokenize_ids tk) (map p_before ps)) = Int64).
  { apply (@inferred_dtype_uniform _ lb); [|now rewrite !Forall_map|exact Lb].
    destruct ps; [congruence | discriminate]. }
  assert (Tm : inferred_dtype (map (tokenize_ids tk) (map p_between ps)) = Int64).
  { apply (@inferred_dtype_uniform _ lm); [|now rewrite !Forall_map|exact Lm].
    destruct ps; [congruence | discriminate]. }
  assert (Ta : inferred_dtype (map (encode_one tk kw_after) (map p_after ps))
               = Int64).
  { apply (@inferred_dtype_int _ (suffix_ids self p0)); [|exact Hsuf].
    unfold suffix_ids. fold tk. rewrite map_map.
    apply (in_map (fun p => encode_one tk kw_after (p_after p))). exact Hin. }
  rewrite Tb in Eb. rewrite Tm in Em. rewrite Ta in Ea.
  rewrite (prompt_list_wrap_some _ _ _ _ _ _ Hne F).
  fold tk. rewrite Eb, Em, Ea. rewrite (breakpoint_ok _ Hbp).
  cbn [bind input_ids attention_mask input_ids_dtype embedding].
  rewrite !map_map. fold embed.
  replace (map (fun x => repeat 1%Z (List.length (tokenize_ids tk (p_before x)))) ps)
    with (map (fun _ : string => repeat 1%Z lb) ps)
    by (apply map_ext_Forall; eapply Forall_impl; [|exact Hb];
        intros p Hp; cbv beta in *; now rewrite Hp).
  replace (map (fun x => repeat 1%Z (List.length (tokenize_ids tk (p_between x)))) ps)
    with (map (fun _ : string => repeat 1%Z lm) ps)
    by (apply map_ext_Forall; eapply Forall_impl; [|exact Hm];
        intros p Hp; cbv beta in *; now rewrite Hp).
  reflexivity.
Qed.

(** X6.  Without a prompt ([None] or an empty list) [prompt_list_wrap]
    returns the two blocks side by side, sequence block first, and the two
    masks side by side, when the blocks agree on the batch size and the masks
    agree on the batch size; it raises the size error of [torch.cat]
    otherwise.  No tokenizer call is made. *)
Theorem prompt_list_wrap_without_prompt prompt :
  truthy prompt = false ->
  (dim0 img_embeds = dim0 str_embeds -> dim0 atts_img = dim0 atts_str ->
   exists e a,
     prompt_list_wrap self sd img_embeds atts_img str_embeds atts_str prompt
       = Ok (e, a) /\
     dim1 e = dim1 img_embeds + dim1 str_embeds /\
     dim1 a = dim1 atts_img + dim1 atts_str /\
     (forall b, row e b =
        match row img_embeds b, row str_embeds b with
        | Some x, Some y => Some (x ++ y)
        | _, _ => None
        end) /\
     (forall b, row a b =
        match row atts_img b, row atts_str b with
        | Some x, Some y => Some (x ++ y)
        | _, _ => None
        end))
  /\ (dim0 img_embeds <> dim0 str_embeds \/ dim0 atts_img <> dim0 atts_str ->
      prompt_list_wrap self sd img_embeds atts_img str_embeds atts_str prompt
        = Raise cat_error).
Proof.
  intros Hf. rewrite (prompt_list_wrap_none _ _ _ _ _ _ _ Hf). split.
  - intros D1 D2.
    destruct (torch_cat2_ok _ _ D1) as [e He].
    destruct (torch_cat2_ok _ _ D2) as [a Ha].
    exists e, a. rewrite He, Ha. cbn [bind].
    apply torch_cat2_inv in He as (_ & _ & E1 & ER).
    apply torch_cat2_inv in Ha as (_ & _ & A1 & AR).
    repeat split; auto.
    + intros b. unfold row. now rewrite ER, zip_with_nth.
    + intros b. unfold row. now rewrite AR, zip_with_nth.
  - unfold torch_cat, cat_onto.
    destruct (Nat.eq_dec (dim0 img_embeds) (dim0 str_embeds)) as [D1 | D1].
    + intros [H | H]; [contradiction|].
      rewrite (cat2_ok _ _ D1). cbn [bind]. now rewrite (cat2_raise _ _ H).
    + intros _. now rewrite (cat2_raise _ _ D1).
Qed.

(** X7.  Where the debugger hook of line 250 returns, for accepted prompts,
    as many as the four tensors have rows, whose prefixes all have [lb]
    tokens and whose middles all have [lm] tokens, neither zero, and one of
    whose suffixes has an id, [prompt_list_wrap] returns a mask that is, row
    by row: [lb] ones, the mask of the sequence block, [lm] ones, the mask of
    the structure block, and for the suffix of [n] ids, the longest suffix
    having [la]: [la - n] zeros followed by [n] ones when the tokenizer pads
    on the left, [n] ones followed by [la - n] zeros when it pads on the
    right. *)
Theorem prompt_list_wrap_mask ps lb lm :
  breakpoint_returns self = true ->
  ps <> [] -> Forall accepted ps ->
  Forall (fun p => List.length (tokenize_ids tk (p_before p)) = lb) ps ->
  Forall (fun p => List.length (tokenize_ids tk (p_between p)) = lm) ps ->
  0 < lb -> 0 < lm ->
  (exists p, In p ps /\ suffix_ids self p <> []) ->
  dim0 img_embeds = List.length ps -> dim0 atts_img = List.length ps ->
  dim0 str_embeds = List.length ps -> dim0 atts_str = List.length ps ->
  let la := longest (map (suffix_ids self) ps) in
  exists e a,
    prompt_list_wrap self sd img_embeds atts_img str_embeds atts_str (Some ps)
      = Ok (e, a) /\
    dim1 a = lb + dim1 atts_img + lm + dim1 atts_str + la /\
    forall b p x y,
      nth_error ps b = Some p ->
      row atts_img b = Some x -> row atts_str b = Some y ->
      let n := List.length (suffix_ids self p) in
      n <= la /\
      row a b = Some (repeat 1%Z lb ++ x ++ repeat 1%Z lm ++ y
                      ++ match sd with
                         | PadLeft => repeat 0%Z (la - n) ++ repeat 1%Z n
                         | PadRight => repeat 1%Z n ++ repeat 0%Z (la - n)
                         end).
Proof.
  intros Hbp Hne F Hb Hm Lb Lm Hs D1 D2 D3 D4 la.
  rewrite (prompt_list_wrap_explicit Hbp Hne F Hb Hm Lb Lm Hs). fold la.
  match goal with |- context [torch_cat [?a; ?b; ?c; ?d; ?e]] =>
    destruct (@torch_cat5_ok _ a b c d e) as [we Hwe] end.
  1-4: unfold dim0, embed in *; cbn [rows tmap]; rewrite ?length_map; congruence.
  match goal with |- context [torch_cat [?a; atts_img; ?c; ?d; ?e]] =>
    destruct (@torch_cat5_ok _ a atts_img c d e) as [wa Hwa] end.
  1-4: unfold dim0 in *; cbn [rows]; rewrite ?length_map; congruence.
  rewrite Hwe, Hwa. cbn [bind]. exists we, wa. split; [reflexivity|].
  apply torch_cat5_inv in Hwa as (_ & _ & _ & _ & _ & Hd & Hr).
  split; [exact Hd|].
  intros b p x y Hp Hx Hy. cbv zeta. split.
  - apply longest_ge. apply in_map. eapply nth_error_In. exact Hp.
  - rewrite Hr, Hx, Hy. unfold row. cbn [rows].
    rewrite !nth_error_map, Hp. cbn [option_map]. unfold pad_mask.
    now destruct sd.
Qed.

(** X26.  [breakpoint()] stands between the tokenizer calls and the
    embedding lookups: where it does not return, every call with accepted
    prompts whose prefixes have one number of tokens and whose middles have
    one number of tokens ends with [bdb.BdbQuit], whatever the blocks
    are. *)
Theorem prompt_list_wrap_debugger_quit ps lb lm :
  breakpoint_returns self = false ->
  ps <> [] -> Forall accepted ps ->
  Forall (fun p => List.length (tokenize_ids tk (p_before p)) = lb) ps ->
  Forall (fun p => List.length (tokenize_ids tk (p_between p)) = lm) ps ->
  prompt_list_wrap self sd img_embeds atts_img str_embeds atts_str (Some ps)
  = Raise BdbQuit.
Proof.
  intros Hbp Hne F Hb Hm.
  assert (Nb : map p_before ps <> []) by (destruct ps; [congruence|discriminate]).
  assert (Nm : map p_between ps <> []) by (destruct ps; [congruence|discriminate]).
  assert (Na : map p_after ps <> []) by (destruct ps; [congruence|discriminate]).
  pose proof (@tokenizer_call_plain tk sd (map p_before ps) lb Nb) as Eb.
  pose proof (@tokenizer_call_plain tk sd (map p_between ps) lm Nm) as Em.
  rewrite Forall_map in Eb, Em. specialize (Eb Hb). specialize (Em Hm).
  pose proof (@tokenizer_call_padded tk sd kw_after (map p_after ps) eq_refl Na)
    as Ea. cbv zeta in Ea.
  rewrite (prompt_list_wrap_some _ _ _ _ _ _ Hne F).
  fold tk. rewrite Eb, Em, Ea. cbn [bind].
  now rewrite (breakpoint_quit _ Hbp).
Qed.

(** X27.  Where [breakpoint()] returns, accepted prompts whose prefixes all
    have no token (the prompts start with [<proteinHere>]), or whose middles
    all have no token, make the embedding lookup raise: the ids of the empty
    segments are a float tensor. *)
Theorem prompt_list_wrap_empty_segment ps lb lm :
  breakpoint_returns self = true ->
  ps <> [] -> Forall accepted ps ->
  Forall (fun p => List.length (tokenize_ids tk (p_before p)) = lb) ps ->
  Forall (fun p => List.length (tokenize_ids tk (p_between p)) = lm) ps ->
  lb = 0 \/ lm = 0 ->
  prompt_list_wrap self sd img_embeds atts_img str_embeds atts_str (Some ps)
  = Raise float_index_error.
Proof.
  intros Hbp Hne F Hb Hm H0.
  assert (Nb : map p_before ps <> []) by (destruct ps; [congruence|discriminate]).
  assert (Nm : map p_between ps <> []) by (destruct ps; [congruence|discriminate]).
  assert (Na : map p_after ps <> []) by (destruct ps; [congruence|discriminate]).
  pose proof (@tokenizer_call_plain tk sd (map p_before ps) lb Nb) as Eb.
  pose proof (@tokenizer_call_plain tk sd (map p_between ps) lm Nm) as Em.
  rewrite Forall_map in Eb, Em. specialize (Eb Hb). specialize (Em Hm).
  pose proof (@tokenizer_call_padded tk sd kw_after (map p_after ps) eq_refl Na)
    as Ea. cbv zeta in Ea.
  assert (Z0 : forall (f : string -> string) l,
            Forall (fun p => List.length (tokenize_ids tk (f p)) = l) ps ->
            l = 0 ->
            inferred_dtype (map (tokenize_ids tk) (map f ps)) = Float32).
  { intros f l Hf ->. apply inferred_dtype_float. rewrite !Forall_map.
    eapply Forall_impl; [|exact Hf]. intros p Hp.
    cbv beta in *. now apply length_zero_iff_nil. }
  rewrite (prompt_list_wrap_some _ _ _ _ _ _ Hne F).
  fold tk. rewrite Eb, Em, Ea. rewrite (breakpoint_ok _ Hbp).
  cbn [bind input_ids attention_mask input_ids_dtype].
  destruct (Nat.eq_dec lb 0) as [Lb | Lb].
  - rewrite (Z0 p_before lb Hb Lb). reflexivity.
  - assert (Lm : lm = 0) by (destruct H0; [contradiction | assumption]).
    rewrite (@inferred_dtype_uniform (map (tokenize_ids tk) (map p_before ps)) lb);
      [| destruct ps; [congruence | discriminate]
       | now rewrite !Forall_map | lia].
    cbn [embedding bind]. rewrite (Z0 p_between lm Hm Lm). reflexivity.
Qed.

(** X8.  For accepted prompts, two prompts of the list whose prefixes have
    different numbers of tokens, or whose middles have, make the call raise
    the tokenizer's error, whatever the blocks are. *)
Theorem prompt_list_wrap_unequal_tokens ps p1 p2 :
  Forall accepted ps -> In p1 ps -> In p2 ps ->
  List.length (tokenize_ids tk (p_before p1))
    <> List.length (tokenize_ids tk (p_before p2))
  \/ List.length (tokenize_ids tk (p_between p1))
       <> List.length (tokenize_ids tk (p_between p2)) ->
  prompt_list_wrap self sd img_embeds atts_img str_embeds atts_str (Some ps)
  = Raise ragged_error.
Proof.
  intros F H1 H2 [Hne | Hne].
  - exact (@prompt_list_wrap_ragged self sd img_embeds str_embeds atts_img
             atts_str ps p1 p2 F H1 H2 Hne).
  - assert (Hps : ps <> []) by (intros ->; contradiction).
    rewrite (prompt_list_wrap_some _ _ _ _ _ _ Hps F).
    destruct (tokenizer_call (llama_tokenizer self) sd kw_plain (map p_before ps))
      as [bef|e] eqn:Eb; cbn [bind].
    + rewrite (@tokenizer_call_plain_ragged (llama_tokenizer self) sd _
                 (p_between p1) (p_between p2)); auto using in_map.
    + assert (Nb : map p_before ps <> [])
        by (destruct ps; [congruence | discriminate]).
      now rewrite (@tokenizer_call_raise_nonempty _ _ _ _ _ Nb Eb).
Qed.

(** X9.  What [prompt_list_wrap] returns in the prompt branch it returns
    only for accepted prompts, as many as each of the four tensors has rows,
    whose prefixes have one number of tokens and whose middles have one
    number of tokens; the result has one row per prompt. *)
Theorem prompt_list_wrap_returns_only_if ps e a :
  ps <> [] ->
  prompt_list_wrap self sd img_embeds atts_img str_embeds atts_str (Some ps)
    = Ok (e, a) ->
  Forall accepted ps /\
  (exists lb lm,
     Forall (fun p => List.length (tokenize_ids tk (p_before p)) = lb) ps /\
     Forall (fun p => List.length (tokenize_ids tk (p_between p)) = lm) ps) /\
  dim0 img_embeds = List.length ps /\ dim0 atts_img = List.length ps /\
  dim0 str_embeds = List.length ps /\ dim0 atts_str = List.length ps /\
  dim0 e = List.length ps /\ dim0 a = List.length ps.
Proof.
  intros Hne H.
  apply prompt_list_wrap_inv in H
    as [(ps' & bef & bet & aft & [= <-] & _ & F & Tb & Tm & Ta & He & Ha)
       | (Hf & _)].
  2:{ destruct ps; [congruence | discriminate]. }
  split; [exact F|].
  pose proof (tokenizer_call_plain_inv _ _ _ Tb) as Ub.
  pose proof (tokenizer_call_plain_inv _ _ _ Tm) as Um.
  rewrite Forall_map in Ub, Um.
  split; [eauto|].
  apply tokenizer_call_inv in Tb as (Db & Db' & _).
  rewrite length_map in Db, Db'.
  apply torch_cat5_inv in He as (E1 & _ & E3 & _ & E5 & _).
  apply torch_cat5_inv in Ha as (A1 & _ & A3 & _ & A5 & _).
  assert (De : dim0 (tmap (embed_tokens self) (input_ids bef)) = List.length ps).
  { unfold dim0 in *. cbn [tmap rows]. now rewrite length_map. }
  repeat split; congruence.
Qed.

(** X10.  [prompt_list_wrap] keeps the block invariant: given two blocks
    (rows of the announced length, mask and embedding of one batch size and
    one sequence length), what it returns is a block. *)
Theorem prompt_list_wrap_block prompt e a :
  block img_embeds atts_img -> block str_embeds atts_str ->
  prompt_list_wrap self sd img_embeds atts_img str_embeds atts_str prompt
    = Ok (e, a) ->
  block e a.
Proof.
  intros (W1 & W2 & B1 & L1) (W3 & W4 & B2 & L2) H.
  destruct (@prompt_list_wrap_well_shaped self sd img_embeds str_embeds
              atts_img atts_str prompt e a W1 W2 W3 W4 H) as [We Wa].
  destruct (@prompt_list_wrap_dim1 self sd img_embeds str_embeds
              atts_img atts_str prompt e a L1 L2 H) as [Hd _].
  repeat split; auto.
  apply prompt_list_wrap_inv in H
    as [(ps & bef & bet & aft & _ & _ & _ & Tb & _ & _ & He & Ha)
       | (_ & He & Ha)].
  - apply tokenizer_call_inv in Tb as (Db & Db' & _).
    apply torch_cat5_inv in He as (_ & _ & _ & _ & -> & _).
    apply torch_cat5_inv in Ha as (_ & _ & _ & _ & -> & _).
    unfold dim0 in *. cbn [tmap rows]. rewrite length_map. congruence.
  - apply torch_cat2_inv in He as (_ & -> & _).
    apply torch_cat2_inv in Ha as (_ & -> & _). exact B1.
Qed.

(** The side does not matter when the suffixes have one number of ids. *)
Lemma prompt_list_wrap_side prompt :
  (forall ps, prompt = Some ps ->
     exists la, Forall (fun p => List.length (suffix_ids self p) = la) ps) ->
  prompt_list_wrap self sd img_embeds atts_img str_embeds atts_str prompt
  = prompt_list_wrap self PadRight img_embeds atts_img str_embeds atts_str
      prompt.
Proof.
  intros Hu.
  destruct (truthy_cases prompt) as [(ps & -> & Hne & _) | Hf].
  - destruct (split_prompts_cases ps) as [[F _] | [E R]].
    + rewrite !(prompt_list_wrap_some _ _ _ _ _ _ Hne F).
      destruct (Hu ps eq_refl) as [la Hla].
      rewrite (@tokenizer_call_padded_uniform (llama_tokenizer self) sd
                 kw_after (map p_after ps) la eq_refl)
        by (now apply Forall_map).
      reflexivity.
    + unfold prompt_list_wrap. destruct ps as [|p ps]; [congruence|].
      cbn [truthy]. now rewrite R.
  - now rewrite !(prompt_list_wrap_none _ _ _ _ _ _ _ Hf).
Qed.

(** X11.  The tokenizer's padding side matters for the suffixes only: when
    the suffixes of the prompts have one number of ids, as for a single
    prompt or for equal prompts, [prompt_list_wrap] returns the same for
    either side. *)
Theorem prompt_list_wrap_side_irrelevant prompt :
  (forall ps, prompt = Some ps ->
     exists la, Forall (fun p => List.length (suffix_ids self p) = la) ps) ->
  prompt_list_wrap self sd img_embeds atts_img str_embeds atts_str prompt
  = prompt_list_wrap self PadRight img_embeds atts_img str_embeds atts_str
      prompt.
Proof. apply prompt_list_wrap_side. Qed.

End PromptMore.

(* ================================================================== *)
(** ** More on the training step *)

Lemma longest_le (rs : list (list Z)) m :
  Forall (fun r => List.length r <= m) rs -> longest rs <= m.
Proof.
  induction 1 as [|r rs Hr _ IH]; cbn [longest fold_right]; [lia|].
  fold (longest rs). lia.
Qed.

Section ForwardMore.
Variable self : ProteinChat.

Let tk := llama_tokenizer self.

Lemma target_ids_length t :
  List.length (target_ids self t)
  = Nat.min (max_txt_len self)
      (List.length (tokenize_ids tk (t ++ end_sym self)%string)).
Proof. unfold target_ids. apply length_firstn. Qed.

(** The tokenized targets, by text. *)
Lemma target_call_rows texts tok :
  tokenizer_call tk PadRight (kw_target self) (target_text self texts) = Ok tok ->
  dim1 (input_ids tok) = longest (map (target_ids self) texts) /\
  rows (input_ids tok)
  = map (fun t => target_ids self t
                  ++ repeat (pad_token_id tk)
                       (dim1 (input_ids tok) - List.length (target_ids self t)))
      texts /\
  rows (attention_mask tok)
  = map (fun t => repeat 1%Z (List.length (target_ids self t))
                  ++ repeat 0%Z
                       (dim1 (input_ids tok) - List.length (target_ids self t)))
      texts.
Proof.
  intros H. assert (Hne : texts <> []).
  { apply tokenizer_call_nonempty in H. unfold target_text in H.
    intros ->. now apply H. }
  revert H. unfold tk. rewrite (target_call self Hne). intros [= <-].
  cbn [input_ids attention_mask dim1 rows].
  unfold target_text. rewrite !map_map. repeat split.
Qed.

Variables (img_embeds : tensor (hidden self)) (atts_img : tensor Z).
Variable texts : list string.

(** A returned record was built from targets one of which has a token. *)
Lemma forward_inputs_token inp :
  forward_inputs self img_embeds atts_img texts = Ok inp ->
  exists t, In t texts /\ target_ids self t <> [].
Proof.
  intros H. apply forward_inputs_inv_full in H as (tok & Et & _ & _ & _ & Ed).
  apply tokenizer_call_dtype in Et. rewrite Ed in Et.
  unfold target_text in Et. rewrite map_map in Et.
  destruct (inferred_dtype_cases
              (map (fun t => encode_one (llama_tokenizer self) (kw_target self)
                               (t ++ end_sym self)%string) texts))
    as [[E _] | [_ (r & Hin & Hne)]]; [congruence|].
  apply in_map_iff in Hin as (t & <- & Hin). exists t. split; [exact Hin|].
  unfold target_ids. now rewrite <- encode_one_target.
Qed.

(** Where [forward_inputs] raises, and what: the tokenizer on an empty batch,
    [torch.cat] on the labels, the embedding lookup on ids without any
    token, [torch.cat] on the input embeddings. *)
Lemma forward_inputs_raise e :
  forward_inputs self img_embeds atts_img texts = Raise e ->
  (texts = [] /\ e = empty_batch_error) \/
  (texts <> [] /\ dim0 atts_img <> List.length texts /\ e = cat_error) \/
  (texts <> [] /\ dim0 atts_img = List.length texts /\
   ~ (exists t, In t texts /\ target_ids self t <> []) /\
   e = float_index_error) \/
  (dim0 atts_img = List.length texts /\
   (exists t, In t texts /\ target_ids self t <> []) /\
   dim0 img_embeds <> List.length texts /\ e = cat_error).
Proof.
  destruct (list_eq_dec string_dec texts []) as [E0 | Hne].
  { unfold forward_inputs. rewrite E0. intros [= <-]. left. now split. }
  unfold forward_inputs. fold tk. fold (target_text self texts).
  pose proof (target_call self Hne) as Et. cbv zeta in Et.
  rewrite target_rows in Et. fold tk in Et. rewrite Et. clear Et.
  cbn [bind input_ids attention_mask input_ids_dtype].
  rewrite masked_fill_eq_scalar.
  destruct (Nat.eq_dec (dim0 atts_img) (List.length texts)) as [Da | Da].
  - match goal with |- context [torch_cat [?a; ?b]] =>
      destruct (@torch_cat2_ok _ a b) as [l ->] end.
    { unfold dim0 in *. cbn [rows tmap ones full].
      rewrite ?length_map, ?repeat_length. exact Da. }
    cbn [bind].
    destruct (inferred_dtype_cases (map (target_ids self) texts))
      as [[E F] | [E (r & Hin & Hr)]]; rewrite E; cbn [embedding bind].
    + intros [= <-]. right. right. left.
      split; [exact Hne|]. split; [exact Da|]. split; [|reflexivity].
      intros (t & Hin & Ht). rewrite Forall_map, Forall_forall in F.
      apply Ht. now apply F.
    + apply in_map_iff in Hin as (t & <- & Hin).
      destruct (Nat.eq_dec (dim0 img_embeds) (List.length texts)) as [Di | Di].
      * match goal with |- context [torch_cat [?a; ?b; ?c]] =>
          destruct (@torch_cat3_ok _ a b c) as [x ->] end.
        1-2: unfold dim0 in *; cbn [rows tmap ones full];
             rewrite ?length_map, ?repeat_length; congruence.
        cbn [bind].
        match goal with |- context [torch_cat [?a; ?b; ?c]] =>
          destruct (@torch_cat3_ok _ a b c) as [m ->] end.
        1-2: unfold dim0 in *; cbn [rows narrow]; rewrite ?length_map;
             congruence.
        discriminate.
      * unfold torch_cat at 1. cbn [cat_onto].
        rewrite cat2_ok
          by (unfold dim0; cbn [rows tmap ones full];
              now rewrite ?length_map, ?repeat_length).
        cbn [bind]. rewrite cat2_raise.
        -- cbn [bind]. intros [= <-]. right. right. right.
           split; [exact Da|]. split; [eauto|]. now split.
        -- unfold dim0 in *. cbn [rows tmap ones full].
           rewrite zip_with_length
             by (now rewrite ?length_map, ?repeat_length).
           rewrite ?length_map, ?repeat_length. exact Di.
  - unfold torch_cat at 1. cbn [cat_onto]. rewrite cat2_raise.
    + cbn [bind]. intros [= <-]. right. left. now split.
    + unfold dim0 in *. cbn [rows tmap ones full].
      rewrite ?length_map, ?repeat_length. exact Da.
Qed.

(** X12.  The second half of [forward] returns exactly when the fused block
    and its mask have one row per target text and one target text has a
    token after truncation.  Otherwise it raises: the tokenizer's error for
    a batch without target texts; the size error of [torch.cat] when the
    mask of the fused block has another number of rows than there are texts;
    then the index error of the embedding lookup when no target text has a
    token (the ids are a float tensor); then the size error of [torch.cat]
    when the fused block has another number of rows than there are texts. *)
Theorem forward_inputs_returns_iff :
  ((exists inp, forward_inputs self img_embeds atts_img texts = Ok inp)
   <-> dim0 img_embeds = List.length texts /\
       dim0 atts_img = List.length texts /\
       exists t, In t texts /\ target_ids self t <> [])
  /\ (texts = [] ->
      forward_inputs self img_embeds atts_img texts = Raise empty_batch_error)
  /\ (texts <> [] -> dim0 atts_img <> List.length texts ->
      forward_inputs self img_embeds atts_img texts = Raise cat_error)
  /\ (texts <> [] -> dim0 atts_img = List.length texts ->
      ~ (exists t, In t texts /\ target_ids self t <> []) ->
      forward_inputs self img_embeds atts_img texts = Raise float_index_error)
  /\ (dim0 atts_img = List.length texts ->
      (exists t, In t texts /\ target_ids self t <> []) ->
      dim0 img_embeds <> List.length texts ->
      forward_inputs self img_embeds atts_img texts = Raise cat_error).
Proof.
  assert (Iff : (exists inp, forward_inputs self img_embeds atts_img texts = Ok inp)
                <-> dim0 img_embeds = List.length texts /\
                    dim0 atts_img = List.length texts /\
                    exists t, In t texts /\ target_ids self t <> []).
  { split.
    - intros [inp H].
      destruct (forward_inputs_spec _ _ _ H) as (_ & _ & D1 & D2 & _).
      split; [exact D1|]. split; [exact D2|].
      exact (forward_inputs_token H).
    - intros (D1 & D2 & Ht). now apply forward_inputs_ok. }
  assert (Raises : forall e',
            ~ (dim0 img_embeds = List.length texts /\
               dim0 atts_img = List.length texts /\
               exists t, In t texts /\ target_ids self t <> []) ->
            (forall e, forward_inputs self img_embeds atts_img texts = Raise e ->
               e = e') ->
            forward_inputs self img_embeds atts_img texts = Raise e').
  { intros e' Hn He.
    destruct (forward_inputs self img_embeds atts_img texts) as [inp|e] eqn:E.
    - exfalso. apply Hn, Iff. eauto.
    - now rewrite (He e eq_refl). }
  split; [exact Iff|]. split; [|split; [|split]].
  - intros E0. apply Raises.
    + intros (_ & _ & t & Hin & _). rewrite E0 in Hin. contradiction.
    + intros e H. apply forward_inputs_raise in H
        as [[_ H] | [[N _] | [[N _] | (_ & (t & Hin & _) & _)]]];
        [exact H | congruence | congruence |].
      rewrite E0 in Hin. contradiction.
  - intros Hne Da. apply Raises.
    + intros (_ & D & _). contradiction.
    + intros e H. apply forward_inputs_raise in H
        as [[N _] | [(_ & _ & H) | [(_ & D & _) | (D & _)]]];
        [congruence | exact H | contradiction | contradiction].
  - intros Hne Da Hno. apply Raises.
    + intros (_ & _ & Ht). contradiction.
    + intros e H. apply forward_inputs_raise in H
        as [[N _] | [(_ & D & _) | [(_ & _ & _ & H) | (_ & Ht & _)]]];
        [congruence | contradiction | exact H | contradiction].
  - intros Da Ht Di. apply Raises.
    + intros (D & _). contradiction.
    + intros e H. apply forward_inputs_raise in H
        as [[N _] | [(_ & D & _) | [(_ & _ & Hno & _) | (_ & _ & _ & H)]]];
        [|contradiction | contradiction | exact H].
      destruct Ht as (t & Hin & _). rewrite N in Hin. contradiction.
Qed.

(** X13.  Truncation bounds the training sequence: the target part of the
    three tensors is at most [max_txt_len] long, and it is as long as the
    longest target text after truncation. *)
Theorem forward_sequence_length_bound inp :
  forward_inputs self img_embeds atts_img texts = Ok inp ->
  dim1 (labels inp) <= dim1 atts_img + 1 + max_txt_len self /\
  dim1 (inputs_embeds inp) <= 1 + dim1 img_embeds + max_txt_len self /\
  forall t, In t texts ->
    dim1 atts_img + 1
    + Nat.min (max_txt_len self)
        (List.length (tokenize_ids tk (t ++ end_sym self)%string))
    <= dim1 (labels inp).
Proof.
  intros H.
  destruct (forward_inputs_spec _ _ _ H)
    as (tok & Et & _ & _ & L1 & L2 & _).
  destruct (target_call_rows _ Et) as (Ed & _ & _).
  assert (Hle : dim1 (input_ids tok) <= max_txt_len self).
  { rewrite Ed. apply longest_le, Forall_map, Forall_forall.
    intros t _. rewrite target_ids_length. lia. }
  repeat split; try lia.
  intros t Ht. rewrite L1, Ed, <- target_ids_length.
  pose proof (@longest_ge (map (target_ids self) texts) (target_ids self t)
                (in_map _ _ _ Ht)). lia.
Qed.

(** X14.  The labels, the input embeddings and the attention mask have one
    row per target text, and their rows have the announced length when the
    rows of the fused block and of its mask have. *)
Theorem forward_inputs_rectangular inp :
  well_shaped img_embeds -> well_shaped atts_img ->
  forward_inputs self img_embeds atts_img texts = Ok inp ->
  well_shaped (labels inp) /\ well_shaped (inputs_embeds inp) /\
  well_shaped (lm_attention_mask inp) /\
  dim0 (labels inp) = List.length texts /\
  dim0 (inputs_embeds inp) = List.length texts /\
  dim0 (lm_attention_mask inp) = List.length texts.
Proof.
  intros Wi Wa H.
  destruct (@forward_inputs_well_shaped self img_embeds atts_img texts inp
              Wi Wa H) as (W1 & W2 & W3).
  destruct (forward_inputs_spec _ _ _ H) as (_ & _ & D1 & D2 & _).
  apply forward_inputs_inv in H as (tok & _ & Hl & He & Hm).
  apply torch_cat2_inv in Hl as (_ & Dl & _).
  apply torch_cat3_inv in He as (_ & _ & De & _).
  apply torch_cat3_inv in Hm as (_ & _ & Dm & _).
  repeat split; auto.
  - rewrite Dl. unfold dim0, full. cbn [rows]. rewrite repeat_length. exact D2.
  - rewrite De. unfold dim0, ones, full. cbn [rows tmap].
    rewrite !length_map, repeat_length. exact D1.
  - rewrite Dm. unfold dim0. cbn [rows narrow]. rewrite length_map. exact D2.
Qed.

(** X15.  A row of labels is: the sentinel at the BOS position and at every
    position of the fused block; then the at most [max_txt_len] ids of the
    target text with [end_sym], where an id equal to the pad id (the EOS id)
    is replaced by the sentinel; then the sentinel at every padding
    position up to the longest target of the batch. *)
Theorem forward_label_rows inp :
  forward_inputs self img_embeds atts_img texts = Ok inp ->
  forall b t, nth_error texts b = Some t ->
    row (labels inp) b
    = Some (repeat (-100)%Z (dim1 atts_img + 1)
            ++ map (ignore_pad self) (target_ids self t)
            ++ repeat (-100)%Z
                 (dim1 (labels inp) - (dim1 atts_img + 1)
                  - List.length (target_ids self t))).
Proof.
  intros H b t Ht.
  destruct (forward_inputs_spec _ _ _ H)
    as (tok & Et & _ & _ & L1 & _ & _ & Rl & _).
  destruct (target_call_rows _ Et) as (_ & Er & _).
  rewrite Rl. unfold row. rewrite Er, nth_error_map, Ht. cbn [option_map].
  rewrite map_app, map_repeat.
  replace (ignore_pad self (pad_token_id tk)) with (-100)%Z
    by (unfold ignore_pad; fold tk; now rewrite Z.eqb_refl).
  do 4 f_equal. lia.
Qed.

End ForwardMore.

(* ================================================================== *)
(** ** [reconstruct_protein] *)

Lemma str_of_nat_newline_free i : newline_free (str_of_nat i) = true.
Proof.
  unfold str_of_nat. generalize (Nat.to_uint i). intros d.
  induction d; cbn; auto.
Qed.

Lemma str_of_nat_inj i j : str_of_nat i = str_of_nat j -> i = j.
Proof.
  unfold str_of_nat. intros H. apply Unsigned.to_uint_inj.
  pose proof (NilEmpty.usu (Nat.to_uint i)) as Hi.
  pose proof (NilEmpty.usu (Nat.to_uint j)) as Hj.
  rewrite H in Hi. congruence.
Qed.

(** Two texts without line break, each followed by a line break and a rest,
    are equal with their rests when the wholes are. *)
Lemma split_at_newline a b s t :
  newline_free a = true -> newline_free b = true ->
  (a ++ newline ++ s)%string = (b ++ newline ++ t)%string ->
  a = b /\ s = t.
Proof.
  revert b. induction a as [|x a IH]; intros [|y b] Ha Hb H.
  - cbn in H. injection H as ->. auto.
  - cbn in H, Hb. injection H as <- _. discriminate Hb.
  - cbn in H, Ha. injection H as -> _. discriminate Ha.
  - cbn in H, Ha, Hb. injection H as -> H.
    apply andb_true_iff in Ha as [_ Ha]. apply andb_true_iff in Hb as [_ Hb].
    destruct (IH b Ha Hb H) as [-> ->]. auto.
Qed.

Lemma nth_error_combine_seq {A : Type} (l : list A) : forall a i x,
  nth_error l i = Some x ->
  nth_error (combine (seq a (List.length l)) l) i = Some (a + i, x).
Proof.
  induction l as [|y l IH]; intros a [|i] x H; try discriminate.
  - cbn in *. injection H as ->. now rewrite Nat.add_0_r.
  - cbn in *. rewrite (IH (S a) i x H). f_equal. f_equal. lia.
Qed.

(** X16.  The structure predictor is handed one record per sequence, in the
    order of the sequences; record [i] is the header [>sequence_i], a line
    break and the sequence.  The number and the sequence can be read back
    from a record: different positions or different sequences give different
    records. *)
Theorem fasta_contents_records seqs :
  List.length (fasta_contents seqs) = List.length seqs /\
  (forall i s, nth_error seqs i = Some s ->
     nth_error (fasta_contents seqs) i
     = Some (">sequence_" ++ str_of_nat i ++ newline ++ s)%string) /\
  (forall i s j t, fasta_record i s = fasta_record j t -> i = j /\ s = t).
Proof.
  split; [|split].
  - unfold fasta_contents.
    rewrite length_map, length_combine, length_seq. lia.
  - intros i s H. unfold fasta_contents.
    rewrite nth_error_map, (nth_error_combine_seq _ 0 _ H). reflexivity.
  - intros i s j t H. unfold fasta_record in H. cbn [append] in H.
    injection H as H.
    apply split_at_newline in H as [H ->];
      auto using str_of_nat_newline_free.
    split; [now apply str_of_nat_inj | reflexivity].
Qed.

Lemma np_concatenate0_ok {A : Type} (t : tensor A) ts :
  Forall (fun u => dim1 u = dim1 t) ts ->
  np_concatenate0 (t :: ts)
  = Ok (Tensor (dim1 t) (List.concat (map (@rows A) (t :: ts)))).
Proof.
  intros F. unfold np_concatenate0.
  replace (forallb _ ts) with true; [reflexivity|].
  symmetry. apply forallb_forall. rewrite Forall_forall in F.
  intros u Hu. apply Nat.eqb_eq. auto.
Qed.

Lemma np_concatenate0_inv {A : Type} (ts : list (tensor A)) r :
  np_concatenate0 ts = Ok r ->
  exists t ts', ts = t :: ts' /\ Forall (fun u => dim1 u = dim1 t) ts' /\
    r = Tensor (dim1 t) (List.concat (map (@rows A) ts)).
Proof.
  destruct ts as [|t ts]; [discriminate|]. unfold np_concatenate0.
  destruct (forallb _ ts) eqn:E; [|discriminate]. intros [= <-].
  exists t, ts. repeat split.
  rewrite forallb_forall in E. apply Forall_forall. intros u Hu.
  apply Nat.eqb_eq. auto.
Qed.

Section Reconstruct.
Variable self : ProteinChat.

Lemma reconstruct_protein_unfold seqs :
  reconstruct_protein self seqs =
  (structures <- alphafold_predict_structure self (fasta_contents seqs) ;;
   '(coords, confidence, padding_mask) <- unzip3 structures ;;
   coords <- np_concatenate0 coords ;;
   confidence <- np_concatenate0 confidence ;;
   padding_mask <- np_concatenate0 padding_mask ;;
   Ok (coords, confidence, padding_mask)).
Proof. reflexivity. Qed.

(** X17.  When the predictor returns at least one structure and all
    structures have the widths of the first, [reconstruct_protein] returns
    the three tensors whose rows are the rows of the structures one after the
    other, in the order of the structures; their widths are those of the
    first structure. *)
Theorem reconstruct_protein_concatenates seqs s sts :
  alphafold_predict_structure self (fasta_contents seqs) = Ok (s :: sts) ->
  same_widths s sts ->
  reconstruct_protein self seqs
  = Ok (Tensor (dim1 (st_coords s))
          (List.concat (map (fun u => rows (st_coords u)) (s :: sts))),
        Tensor (dim1 (st_confidence s))
          (List.concat (map (fun u => rows (st_confidence u)) (s :: sts))),
        Tensor (dim1 (st_mask s))
          (List.concat (map (fun u => rows (st_mask u)) (s :: sts)))).
Proof.
  intros Hp F. rewrite reconstruct_protein_unfold, Hp. cbn [bind unzip3].
  change (map (fun x => fst (fst x)) (s :: sts))
    with (st_coords s :: map st_coords sts).
  change (map (fun x => snd (fst x)) (s :: sts))
    with (st_confidence s :: map st_confidence sts).
  change (map (fun x => snd x) (s :: sts))
    with (st_mask s :: map st_mask sts).
  unfold same_widths in F.
  rewrite !np_concatenate0_ok.
  - cbn [bind map]. now rewrite !map_map.
  - apply Forall_map. eapply Forall_impl; [|exact F]. cbv beta. tauto.
  - apply Forall_map. eapply Forall_impl; [|exact F]. cbv beta. tauto.
  - apply Forall_map. eapply Forall_impl; [|exact F]. cbv beta. tauto.
Qed.

(** X18.  [reconstruct_protein] passes on what the predictor raises, raises
    a [ValueError] when the predictor returns no structure, and returns only
    when the predictor returned at least one structure and all structures
    have the widths of the first. *)
Theorem reconstruct_protein_failures seqs :
  (forall e, alphafold_predict_structure self (fasta_contents seqs) = Raise e ->
             reconstruct_protein self seqs = Raise e)
  /\ (alphafold_predict_structure self (fasta_contents seqs) = Ok [] ->
      reconstruct_protein self seqs
      = Raise (ValueError "not enough values to unpack (expected 3, got 0)"))
  /\ (forall r, reconstruct_protein self seqs = Ok r ->
        exists s sts,
          alphafold_predict_structure self (fasta_contents seqs)
          = Ok (s :: sts) /\ same_widths s sts).
Proof.
  rewrite reconstruct_protein_unfold. split; [|split].
  - now intros e ->.
  - now intros ->.
  - intros r.
    destruct (alphafold_predict_structure self (fasta_contents seqs))
      as [[|s sts]|]; try discriminate.
    cbn [bind unzip3]. intros H. exists s, sts. split; [reflexivity|].
    destruct (np_concatenate0 (map (fun x => fst (fst x)) (s :: sts)))
      as [c|] eqn:Ec; [|discriminate]. cbn [bind] in H.
    destruct (np_concatenate0 (map (fun x => snd (fst x)) (s :: sts)))
      as [f|] eqn:Ef; [|discriminate]. cbn [bind] in H.
    destruct (np_concatenate0 (map (fun x => snd x) (s :: sts)))
      as [m|] eqn:Em; [|discriminate].
    apply np_concatenate0_inv in Ec as (? & ? & [= <- <-] & Fc & _).
    apply np_concatenate0_inv in Ef as (? & ? & [= <- <-] & Ff & _).
    apply np_concatenate0_inv in Em as (? & ? & [= <- <-] & Fm & _).
    rewrite Forall_map in Fc, Ff, Fm. unfold same_widths.
    rewrite Forall_forall in *. intros u Hu.
    repeat split; [apply Fc | apply Ff | apply Fm]; exact Hu.
Qed.

End Reconstruct.

(* ================================================================== *)
(** ** [encode_str]: batch first *)

Lemma column_nth {A : Type} (i : nat) (rs : list (list A)) : forall j,
  Forall (fun r => i < List.length r) rs ->
  nth_error (column i rs) j
  = match nth_error rs j with
    | Some r => nth_error r i
    | None => None
    end.
Proof.
  induction rs as [|r rs IH]; intros j F.
  - now destruct j.
  - inversion F as [|? ? Hr F']; subst. unfold column. cbn [flat_map].
    destruct (nth_error r i) as [x|] eqn:E.
    + destruct j as [|j]; cbn; [now rewrite E|]. now apply IH.
    + apply nth_error_None in E. lia.
Qed.

Lemma column_length {A : Type} (i : nat) (rs : list (list A)) :
  Forall (fun r => i < List.length r) rs ->
  List.length (column i rs) = List.length rs.
Proof.
  induction 1 as [|r rs Hr _ IH]; [reflexivity|].
  unfold column in *. cbn [flat_map].
  destruct (nth_error r i) eqn:E.
  - cbn. now rewrite IH.
  - apply nth_error_None in E. lia.
Qed.

(** Exchanging the two axes exchanges the two indices. *)
Lemma entry_permute10 {A : Type} (t : tensor A) i j :
  well_shaped t -> entry (permute10 t) i j = entry t j i.
Proof.
  intros W. unfold entry, permute10. cbn [rows].
  rewrite nth_error_map.
  destruct (Nat.lt_ge_cases i (dim1 t)) as [Hi | Hi].
  - assert (E : nth_error (seq 0 (dim1 t)) i = Some i).
    { rewrite nth_error_seq. apply Nat.ltb_lt in Hi. now rewrite Hi. }
    rewrite E. cbn [option_map]. apply column_nth.
    eapply Forall_impl; [|exact W]. intros r Hr. cbv beta in Hr. lia.
  - assert (E : nth_error (seq 0 (dim1 t)) i = None)
      by (apply nth_error_None; now rewrite length_seq).
    rewrite E. cbn [option_map].
    destruct (nth_error (rows t) j) as [r|] eqn:Er; [|reflexivity].
    symmetry. apply nth_error_None.
    unfold well_shaped in W. rewrite Forall_forall in W.
    rewrite (W r (nth_error_In _ _ Er)). exact Hi.
Qed.

Lemma permute10_well_shaped {A : Type} (t : tensor A) :
  well_shaped t -> well_shaped (permute10 t).
Proof.
  intros W. unfold well_shaped, permute10. cbn [rows dim1].
  apply Forall_map, Forall_forall. intros i Hi. apply in_seq in Hi.
  unfold dim0. apply column_length.
  eapply Forall_impl; [|exact W]. intros r Hr. cbv beta in Hr. lia.
Qed.

Section EncodeStr.
Variable self : ProteinChat.
Variables (coords : tensor (coords_t self))
          (confidence : tensor (confidence_t self))
          (padding_mask : tensor bool).

Let encoder_out :=
  str_encoder self coords confidence (tensor_not padding_mask).

(** X19.  [encode_str] returns the encoder output batch first: entry
    [(b, j)] of its embeddings is the projection of entry [(j, b)] of the
    encoder output, for an encoder output whose rows have the announced
    length. *)
Theorem encode_str_batch_first b j :
  well_shaped encoder_out ->
  entry (fst (encode_str self (coords, confidence, padding_mask))) b j
  = option_map (str_llama_proj self) (entry encoder_out j b).
Proof.
  intros W. cbn [encode_str fst]. fold encoder_out.
  now rewrite entry_tmap, entry_permute10.
Qed.

(** X20.  For an encoder that returns, for a mask of batch size [B] and
    length [L], [L] rows of [B] entries, [encode_str] returns a block: the
    embeddings and the mask have [B] rows of [L] entries each. *)
Theorem encode_str_block :
  well_shaped padding_mask ->
  well_shaped encoder_out ->
  dim0 encoder_out = dim1 padding_mask ->
  dim1 encoder_out = dim0 padding_mask ->
  let '(str_embeds, atts_llama) :=
    encode_str self (coords, confidence, padding_mask) in
  block str_embeds atts_llama /\
  dim0 atts_llama = dim0 padding_mask /\ dim1 atts_llama = dim1 padding_mask.
Proof.
  intros Wm Wo D0 D1. cbn [encode_str]. fold encoder_out.
  unfold block. repeat split.
  - apply tmap_well_shaped, permute10_well_shaped, Wo.
  - apply tmap_well_shaped, Wm.
  - unfold dim0, tensor_long. cbn [tmap permute10 rows].
    rewrite !length_map, length_seq. exact D1.
  - cbn [tmap permute10 dim1 tensor_long]. exact D0.
  - unfold dim0, tensor_long. cbn [tmap rows]. now rewrite length_map.
Qed.

End EncodeStr.

(* ================================================================== *)
(** ** [forward]: early errors and the padding side *)

Section ForwardState.
Variable self : ProteinChat.







(** X21.  [forward] raises what the structure predictor raises; and, when
    the structures were reconstructed, it raises the format error for a
    prompt list that holds a malformed prompt.  In both cases the call ends
    before the tokenizer's padding side is set. *)
Theorem forward_raises_early sd samples :
  (forall e,
     alphafold_predict_structure self (fasta_contents (seq_ samples)) = Raise e ->
     forward self sd samples = (Raise e, sd))
  /\ (forall st ps,
        reconstruct_protein self (seq_ samples) = Ok st ->
        prompt_ samples = Some ps -> Exists malformed ps ->
        forward self sd samples = (Raise format_error, sd)).
Proof.
  split.
  - intros e H. unfold forward, forward_fused.
    rewrite reconstruct_protein_unfold, H. reflexivity.
  - intros st ps Hr Hp E. unfold forward, forward_fused.
    rewrite Hr, Hp. cbn [bind].
    destruct (encode_str self st) as [se sa].
    destruct (encode_protein self (seq_ samples)) as [pe pa].
    unfold prompt_list_wrap. destruct ps as [|p ps]; [inversion E|].
    cbn [truthy]. now rewrite (split_prompts_malformed E).
Qed.



End ForwardState.



(* ================================================================== *)
(** ** The devices chosen at import *)

Section DeviceFacts.
Import Devices.

Lemma split_from_comma_free s : forall cur,
  comma_free s = true -> Devices.split_from cur s = [(cur ++ s)%string].
Proof.
  induction s as [|c s IH]; intros cur H.
  - cbn. now rewrite ReFacts.append_empty_right.
  - cbn [comma_free] in H. apply andb_true_iff in H as [Hc H].
    apply negb_true_iff in Hc. cbn [Devices.split_from]. rewrite Hc.
    rewrite (IH _ H), ReFacts.append_assoc_str. reflexivity.
Qed.

Lemma split_from_at_comma g : forall cur r,
  comma_free g = true ->
  Devices.split_from cur (g ++ String ","%char r)
  = (cur ++ g)%string :: Devices.split_from "" r.
Proof.
  induction g as [|c g IH]; intros cur r H.
  - cbn. now rewrite ReFacts.append_empty_right.
  - cbn [comma_free] in H. apply andb_true_iff in H as [Hc H].
    apply negb_true_iff in Hc. cbn [append Devices.split_from]. rewrite Hc.
    rewrite (IH _ _ H), ReFacts.append_assoc_str. reflexivity.
Qed.

Variable D : Type.
Variable torch_device : string -> result D.

(** X24.  With [CUDA_VISIBLE_DEVICES] unset, or set to a value without
    comma, the module cannot be imported: the second device does not exist.
    It is an [IndexError] when [torch.device] accepts the first device. *)
Theorem select_devices_one_gpu env :
  comma_free (getenv env "0") = true ->
  (forall d, select_devices torch_device env <> Imported d) /\
  (forall d, torch_device ("cuda:" ++ getenv env "0")%string = Ok d ->
     select_devices torch_device env
     = Failed (IndexError "list index out of range")).
Proof.
  intros H. unfold select_devices, split_comma.
  rewrite (split_from_comma_free _ "" H). cbn [nth_error append].
  split.
  - intros d. destruct (torch_device _); discriminate.
  - now intros d ->.
Qed.

(** X25.  With a value that lists at least two devices, the structure
    predictor gets the first and the other sub-models get the second;
    further entries are not used. *)
Theorem select_devices_two_gpus g0 g1 rest a b :
  comma_free g0 = true -> comma_free g1 = true ->
  rest = "" \/ (exists r, rest = String ","%char r) ->
  torch_device ("cuda:" ++ g0)%string = Ok a ->
  torch_device ("cuda:" ++ g1)%string = Ok b ->
  select_devices torch_device (Some (g0 ++ "," ++ g1 ++ rest)%string)
  = Imported (a, b).
Proof.
  intros H0 H1 Hr Ha Hb. unfold select_devices, split_comma. cbn [getenv].
  change (g0 ++ "," ++ g1 ++ rest)%string
    with (g0 ++ String ","%char (g1 ++ rest))%string.
  rewrite (split_from_at_comma _ "" _ H0). cbn [nth_error].
  change ("" ++ g0)%string with g0. rewrite Ha.
  assert (E : exists tl, Devices.split_from "" (g1 ++ rest) = g1 :: tl).
  { destruct Hr as [-> | [r ->]].
    - rewrite ReFacts.append_empty_right, (split_from_comma_free _ "" H1).
      change ("" ++ g1)%string with g1. eauto.
    - rewrite (split_from_at_comma _ "" _ H1).
      change ("" ++ g1)%string with g1. eauto. }
  destruct E as [tl ->]. now rewrite Hb.
Qed.

End DeviceFacts.

(* ================================================================== *)
(** ** The further statements at the small instance *)

Lemma accepted_iff_well_formed_witness : PromptShape.well_formed Toy.good.
Proof. apply (proj1 (accepted_iff_well_formed Toy.good)). reflexivity. Defined.

Lemma accepted_segments_witness :
  Segments.free (p_before Toy.good) /\ Segments.free (p_after Toy.good).
Proof.
  destruct (@accepted_segments Toy.good) as (_ & Hb & _ & Ha);
    [reflexivity | exact (conj Hb Ha)].
Defined.

Lemma re_split_of_segments_witness :
  Re.re_split "a<proteinHere>b c<structureHere>"
  = ["a"; "<proteinHere>"; "b c"; "<structureHere>"; ""].
Proof.
  apply (@re_split_of_segments "a" "b c" "");
    split; reflexivity.
Defined.

Lemma prompt_list_wrap_without_prompt_witness :
  exists e a,
    prompt_list_wrap Toy.model PadLeft Toy.img Toy.atts_img Toy.str
      Toy.atts_str None = Ok (e, a) /\
    dim1 e = 3 /\ row a 1 = Some [1; 1; 0]%Z.
Proof.
  destruct (@prompt_list_wrap_without_prompt Toy.model PadLeft Toy.img Toy.str
              Toy.atts_img Toy.atts_str None eq_refl) as [H _].
  destruct (H eq_refl eq_refl) as (e & a & He & D & _ & _ & Ra).
  exists e, a. split; [exact He|]. split; [exact D|]. now rewrite Ra.
Defined.

Lemma prompt_list_wrap_mask_witness :
  exists e a,
    prompt_list_wrap Toy.model PadLeft Toy.img Toy.atts_img Toy.str
      Toy.atts_str (Some [Toy.good; ToyMore.good_long]) = Ok (e, a) /\
    row a 0 = Some ([1] ++ [1; 1] ++ [1; 1] ++ [1] ++ [0; 1; 1])%Z /\
    row a 1 = Some ([1] ++ [1; 1] ++ [1; 1] ++ [0] ++ [1; 1; 1])%Z.
Proof.
  destruct (@prompt_list_wrap_mask Toy.model PadLeft Toy.img Toy.str
              Toy.atts_img Toy.atts_str [Toy.good; ToyMore.good_long] 1 2)
    as (e & a & He & _ & Hr).
  - reflexivity.
  - discriminate.
  - constructor; [|constructor; [|constructor]]; reflexivity.
  - constructor; [|constructor; [|constructor]]; reflexivity.
  - constructor; [|constructor; [|constructor]]; reflexivity.
  - lia.
  - lia.
  - exists Toy.good. split; [now left | discriminate].
  - reflexivity.
  - reflexivity.
  - reflexivity.
  - reflexivity.
  - exists e, a. split; [exact He|]. split.
    + exact (proj2 (Hr 0 Toy.good [1; 1]%Z [1]%Z eq_refl eq_refl eq_refl)).
    + exact (proj2 (Hr 1 ToyMore.good_long [1; 1]%Z [0]%Z eq_refl eq_refl
                      eq_refl)).
Defined.

Lemma prompt_list_wrap_unequal_tokens_witness :
  prompt_list_wrap Toy.model PadRight Toy.img Toy.atts_img Toy.str
    Toy.atts_str (Some Toy.ragged_middle) = Raise ragged_error.
Proof.
  apply (@prompt_list_wrap_unequal_tokens Toy.model PadRight Toy.img Toy.str
           Toy.atts_img Toy.atts_str Toy.ragged_middle
           "<proteinHere>x<structureHere>" "<proteinHere><structureHere>").
  - constructor; [|constructor; [|constructor]]; reflexivity.
  - left. reflexivity.
  - right. left. reflexivity.
  - right. cbn. discriminate.
Defined.

Lemma prompt_list_wrap_returns_only_if_witness :
  Forall accepted [Toy.good; Toy.good] /\ dim0 Toy.img = 2.
Proof.
  destruct (prompt_list_wrap Toy.model PadLeft Toy.img Toy.atts_img Toy.str
              Toy.atts_str (Some [Toy.good; Toy.good])) as [[e a]|] eqn:E.
  - destruct (@prompt_list_wrap_returns_only_if Toy.model PadLeft Toy.img
                Toy.str Toy.atts_img Toy.atts_str [Toy.good; Toy.good] e a)
      as (F & _ & D & _); [discriminate | exact E | exact (conj F D)].
  - vm_compute in E. discriminate E.
Defined.

Lemma toy_blocks : block Toy.img Toy.atts_img /\ block Toy.str Toy.atts_str.
Proof.
  split; (split; [|split; [|split; reflexivity]]);
    (constructor; [|constructor; [|constructor]]); reflexivity.
Qed.

Lemma prompt_list_wrap_block_witness :
  match prompt_list_wrap Toy.model PadLeft Toy.img Toy.atts_img Toy.str
          Toy.atts_str (Some [Toy.good; Toy.good]) with
  | Ok (e, a) => block e a
  | Raise _ => False
  end.
Proof.
  destruct (prompt_list_wrap Toy.model PadLeft Toy.img Toy.atts_img Toy.str
              Toy.atts_str (Some [Toy.good; Toy.good])) as [[e a]|] eqn:E.
  - exact (@prompt_list_wrap_block Toy.model PadLeft Toy.img Toy.str
             Toy.atts_img Toy.atts_str _ e a (proj1 toy_blocks)
             (proj2 toy_blocks) E).
  - vm_compute in E. discriminate E.
Defined.

Lemma prompt_list_wrap_side_irrelevant_witness :
  prompt_list_wrap Toy.model PadLeft Toy.img Toy.atts_img Toy.str
    Toy.atts_str (Some [Toy.good; Toy.good])
  = prompt_list_wrap Toy.model PadRight Toy.img Toy.atts_img Toy.str
      Toy.atts_str (Some [Toy.good; Toy.good]).
Proof.
  apply (@prompt_list_wrap_side_irrelevant Toy.model PadLeft Toy.img Toy.str
           Toy.atts_img Toy.atts_str).
  intros ps [= <-]. exists 2.
  constructor; [|constructor; [|constructor]]; reflexivity.
Defined.

Lemma forward_inputs_returns_iff_witness :
  (exists inp, forward_inputs Toy.model Toy.img Toy.atts_img Toy.texts = Ok inp)
  /\ forward_inputs Toy.model Toy.img Toy.atts_img [] = Raise empty_batch_error
  /\ forward_inputs Toy.model Toy.img Toy.atts_img ["ab"] = Raise cat_error.
Proof.
  split; [|split].
  - apply (proj2 (proj1 (@forward_inputs_returns_iff Toy.model Toy.img
                           Toy.atts_img Toy.texts))).
    split; [reflexivity|]. split; [reflexivity|].
    exists "ab". split; [now left | discriminate].
  - apply (proj1 (proj2 (@forward_inputs_returns_iff Toy.model Toy.img
                           Toy.atts_img []))). reflexivity.
  - apply (proj1 (proj2 (proj2 (@forward_inputs_returns_iff Toy.model Toy.img
                                  Toy.atts_img ["ab"])))).
    + discriminate.
    + cbn. lia.
Defined.

Lemma forward_sequence_length_bound_witness :
  match forward_inputs Toy.model Toy.img Toy.atts_img Toy.texts with
  | Ok inp => dim1 (labels inp) <= dim1 Toy.atts_img + 1 + 4
  | Raise _ => False
  end.
Proof.
  destruct (forward_inputs Toy.model Toy.img Toy.atts_img Toy.texts)
    as [inp|] eqn:E.
  - exact (proj1 (@forward_sequence_length_bound Toy.model Toy.img
                    Toy.atts_img Toy.texts inp E)).
  - vm_compute in E. discriminate E.
Defined.

Lemma forward_inputs_rectangular_witness :
  match forward_inputs Toy.model Toy.img Toy.atts_img Toy.texts with
  | Ok inp => well_shaped (labels inp) /\ dim0 (labels inp) = 2
  | Raise _ => False
  end.
Proof.
  destruct (forward_inputs Toy.model Toy.img Toy.atts_img Toy.texts)
    as [inp|] eqn:E.
  - destruct (@forward_inputs_rectangular Toy.model Toy.img Toy.atts_img
                Toy.texts inp (proj1 (proj1 toy_blocks))
                (proj1 (proj2 (proj1 toy_blocks))) E)
      as (W & _ & _ & D & _).
    exact (conj W D).
  - vm_compute in E. discriminate E.
Defined.

Lemma forward_label_rows_witness :
  match forward_inputs Toy.model Toy.img Toy.atts_img Toy.texts with
  | Ok inp =>
      row (labels inp) 0
      = Some (repeat (-100) 3 ++ [97; 98; 10] ++ repeat (-100)
                (dim1 (labels inp) - 3 - 3))%Z
  | Raise _ => False
  end.
Proof.
  destruct (forward_inputs Toy.model Toy.img Toy.atts_img Toy.texts)
    as [inp|] eqn:E.
  - exact (@forward_label_rows Toy.model Toy.img Toy.atts_img Toy.texts inp E
             0 "ab" eq_refl).
  - vm_compute in E. discriminate E.
Defined.

Lemma fasta_contents_records_witness :
  nth_error (fasta_contents ["MK"; "A"]) 1
  = Some (">sequence_" ++ str_of_nat 1 ++ newline ++ "A")%string.
Proof.
  exact (proj1 (proj2 (fasta_contents_records ["MK"; "A"])) 1 "A" eq_refl).
Defined.

Lemma reconstruct_protein_concatenates_witness :
  reconstruct_protein Toy.model ["MK"; "A"]
  = Ok (Tensor 2 [[0; 0]; [0; 0]]%Z, Tensor 2 [[9; 9]; [9; 9]]%Z,
        Tensor 2 [[true; false]; [true; false]]).
Proof.
  apply (@reconstruct_protein_concatenates Toy.model ["MK"; "A"]
           Toy.one_structure [Toy.one_structure]).
  - reflexivity.
  - constructor; [|constructor]. repeat split.
Defined.

Lemma reconstruct_protein_failures_witness :
  reconstruct_protein ToyMore.failing_model ["MK"]
  = Raise (RuntimeError "out of memory").
Proof.
  apply (proj1 (@reconstruct_protein_failures ToyMore.failing_model ["MK"])).
  reflexivity.
Defined.

Lemma toy_encoder_out_well_shaped :
  well_shaped
    (str_encoder Toy.model (Tensor 2 [[0%Z; 0%Z]]) (Tensor 2 [[9%Z; 9%Z]])
       (tensor_not (Tensor 2 [[true; false]]))).
Proof. constructor; [|constructor; [|constructor]]; reflexivity. Qed.

Lemma encode_str_batch_first_witness :
  entry (fst (encode_str Toy.model Toy.one_structure)) 0 1 = Some 7%Z.
Proof.
  exact (@encode_str_batch_first Toy.model (Tensor 2 [[0%Z; 0%Z]])
           (Tensor 2 [[9%Z; 9%Z]]) (Tensor 2 [[true; false]]) 0 1
           toy_encoder_out_well_shaped).
Defined.

Lemma encode_str_block_witness :
  block (fst (encode_str Toy.model Toy.one_structure))
        (snd (encode_str Toy.model Toy.one_structure)).
Proof.
  assert (W : well_shaped (Tensor 2 [[true; false]]))
    by (constructor; [|constructor]; reflexivity).
  exact (proj1 (@encode_str_block Toy.model (Tensor 2 [[0%Z; 0%Z]])
                  (Tensor 2 [[9%Z; 9%Z]]) (Tensor 2 [[true; false]])
                  W toy_encoder_out_well_shaped eq_refl eq_refl)).
Defined.

Lemma forward_raises_early_witness :
  forward ToyMore.failing_model PadLeft Toy.samples
  = (Raise (RuntimeError "out of memory"), PadLeft)
  /\ forward Toy.model PadLeft ToyMore.bad_samples
     = (Raise format_error, PadLeft).
Proof.
  split.
  - apply (proj1 (@forward_raises_early ToyMore.failing_model PadLeft
                     Toy.samples)). reflexivity.
  - destruct (reconstruct_protein Toy.model (seq_ ToyMore.bad_samples))
      as [st|] eqn:E.
    + apply (proj2 (@forward_raises_early Toy.model PadLeft
                       ToyMore.bad_samples) st
               [Toy.good; "no placeholder"] E eq_refl).
      apply Exists_cons_tl, Exists_cons_hd. reflexivity.
    + vm_compute in E. discriminate E.
Defined.


Lemma select_devices_one_gpu_witness :
  Devices.select_devices ToyMore.device None
  = Devices.Failed (Devices.IndexError "list index out of range").
Proof.
  apply (proj2 (@select_devices_one_gpu string ToyMore.device None eq_refl)
           "cuda:0").
  reflexivity.
Defined.

Lemma select_devices_two_gpus_witness :
  Devices.select_devices ToyMore.device (Some "0,1")
  = Devices.Imported ("cuda:0", "cuda:1").
Proof.
  apply (@select_devices_two_gpus string ToyMore.device "0" "1" "");
    auto; reflexivity.
Defined.

Lemma prompt_list_wrap_debugger_quit_witness :
  prompt_list_wrap ToyMore.batch_model PadLeft Toy.img Toy.atts_img Toy.str
    Toy.atts_str (Some [Toy.good; Toy.good]) = Raise BdbQuit.
Proof.
  apply (@prompt_list_wrap_debugger_quit ToyMore.batch_model PadLeft Toy.img
           Toy.str Toy.atts_img Toy.atts_str [Toy.good; Toy.good] 1 2).
  - reflexivity.
  - discriminate.
  - constructor; [|constructor; [|constructor]]; reflexivity.
  - constructor; [|constructor; [|constructor]]; reflexivity.
  - constructor; [|constructor; [|constructor]]; reflexivity.
Defined.

Lemma prompt_list_wrap_empty_segment_witness :
  prompt_list_wrap Toy.model PadLeft Toy.img Toy.atts_img Toy.str
    Toy.atts_str (Some [ToyMore.no_prefix; ToyMore.no_prefix])
  = Raise float_index_error.
Proof.
  apply (@prompt_list_wrap_empty_segment Toy.model PadLeft Toy.img
           Toy.str Toy.atts_img Toy.atts_str
           [ToyMore.no_prefix; ToyMore.no_prefix] 0 2).
  - reflexivity.
  - discriminate.
  - constructor; [|constructor; [|constructor]]; reflexivity.
  - constructor; [|constructor; [|constructor]]; reflexivity.
  - constructor; [|constructor; [|constructor]]; reflexivity.
  - now left.
Defined.
